(** * Paxos peer of [src/paxos/paxos.py]: shallow embedding and properties

    The Python class [Paxos] is embedded as a record of its attributes and
    one function per method, written in a state-and-exception monad: a
    method call takes the peer's state and either returns a value or raises
    a Python exception, and in both cases yields the state the peer is left
    in (Python does not roll back the writes made before a [raise]). *)

From Stdlib Require Import ZArith Lia.
From stdpp Require Import gmap strings list.

Open Scope Z_scope.

(** ** Python exceptions and built-ins *)

Inductive Exn :=
  | KeyError
  | IndexError
  | ValueError
  | AssertionError
  | AttributeError
  | RuntimeError
  | StopIteration.

(** [l[i]] on a Python list: negative indices count from the end, anything
    outside [-len, len) raises [IndexError] (here: [None]). *)
Definition py_pos {A} (l : list A) (i : Z) : option nat :=
  let len := Z.of_nat (length l) in
  if (0 <=? i) && (i <? len) then Some (Z.to_nat i)
  else if (- len <=? i) && (i <? 0) then Some (Z.to_nat (len + i))
  else None.

Definition py_index {A} (l : list A) (i : Z) : option A :=
  match py_pos l i with
  | Some k => l !! k
  | None => None
  end.

(** [min(l)]: [ValueError] (here: [None]) on the empty list. *)
Definition py_min (l : list Z) : option Z :=
  match l with
  | [] => None
  | x :: l' => Some (foldl Z.min x l')
  end.

(** [a == b] for a [str] and an [int]: Python never finds them equal. *)
Definition py_eq_str_int (a : string) (b : Z) : bool := false.

(** ** Messages *)

Inductive Fate := DECIDED | PENDING | FORGOTTEN.

(** The dataclasses derived from [Instance]. *)
Inductive Payload :=
  | Instance (instance : Z)
  | PrepareRequest (instance proposal : Z)
  | PrepareReply (instance : Z) (ok : bool) (proposal : Z) (value : string)
  | AcceptRequest (instance proposal : Z) (value : string)
  | AcceptReply (instance : Z) (ok : bool)
  | DecidedRequest (instance sender done_seq : Z) (value : string)
  | DecidedReply (instance : Z).

(** Attribute access.  The handlers of the class never test the type of the
    payload they are given; they read attributes, and a missing attribute
    is an [AttributeError] ([None] here). *)
Module Attr.

Definition instance (p : Payload) : Z :=
  match p with
  | Instance i | PrepareRequest i _ | PrepareReply i _ _ _
  | AcceptRequest i _ _ | AcceptReply i _ | DecidedRequest i _ _ _
  | DecidedReply i => i
  end.

Definition proposal (p : Payload) : option Z :=
  match p with
  | PrepareRequest _ n | PrepareReply _ _ n _ | AcceptRequest _ n _ => Some n
  | _ => None
  end.

Definition ok (p : Payload) : option bool :=
  match p with
  | PrepareReply _ b _ _ | AcceptReply _ b => Some b
  | _ => None
  end.

Definition value (p : Payload) : option string :=
  match p with
  | PrepareReply _ _ _ v | AcceptRequest _ _ v | DecidedRequest _ _ _ v => Some v
  | _ => None
  end.

Definition sender (p : Payload) : option Z :=
  match p with
  | DecidedRequest _ s _ _ => Some s
  | _ => None
  end.

Definition done_seq (p : Payload) : option Z :=
  match p with
  | DecidedRequest _ _ d _ => Some d
  | _ => None
  end.

End Attr.

(** [onl.packet.Packet], with the fields this file reads or writes.  The
    creation time is the simulator's clock and is left out. *)
Module Packet.
Record t := mk {
  size : Z;
  packet_id : Z;
  src : string;
  dst : string;
  payload : Payload;
}.
End Packet.

(** Acceptor state of one instance. *)
Record State := mkState {
  np : Z;  (* highest prepare request proposal number received *)
  na : Z;  (* highest accept request proposal number *)
  va : string;  (* value of highest accepted proposal *)
}.

(** Proposer data of one round.  [finish_channel] is a simulator [Store] on
    which nothing in the class ever puts; it carries no data and is left
    out. *)
Module ProposeInfo.
Record t := mk {
  packet_id : Z;
  maxna : Z;
  v1 : string;
  prepare_count : Z;
  prepared : bool;
  accept_count : Z;
  accepted : bool;
}.

(** [ProposeInfo(packet_id, Store(env))]: the dataclass defaults. *)
Definition new (pid : Z) : t := mk pid 0 "" 0 false 0 false.

Definition reset (i : t) : t := mk (packet_id i) 0 "" 0 false 0 false.
End ProposeInfo.

(** ** Dictionaries that are iterated

    [accept_state] is the one dictionary the class iterates over (in
    [do_mem_shrink]), so its insertion order is kept: an association list,
    read at the first entry of a key. *)
Section Dict.
Context {V : Type}.

Fixpoint dict_get (k : Z) (d : list (Z * V)) : option V :=
  match d with
  | [] => None
  | (k', v) :: d' => if decide (k' = k) then Some v else dict_get k d'
  end.

(** [d[k] = v] for a key that is present: the entry keeps its place. *)
Fixpoint dict_set (k : Z) (v : V) (d : list (Z * V)) : list (Z * V) :=
  match d with
  | [] => []
  | (k', v') :: d' =>
      if decide (k' = k) then (k', v) :: d' else (k', v') :: dict_set k v d'
  end.

(** [del d[k]]. *)
Definition dict_del (k : Z) (d : list (Z * V)) : list (Z * V) :=
  filter (fun kv => kv.1 ≠ k) d.

Definition dict_keys (d : list (Z * V)) : list Z := d.*1.
End Dict.

(** ** The peer *)

(** The coroutine that [propose] returns.  [propose] contains [yield], so
    calling it only builds a generator object; its body runs when somebody
    resumes the generator, up to the next [yield].  The frame keeps the
    arguments, the proposal number [n] and [temp], a reference to the
    [ProposeInfo] object the body looked up. *)
Inductive Generator :=
  | Created (seq : Z) (v : string)
  | AtPrepared (seq : Z) (v : string) (n : Z) (temp : nat)
  | AtAccepted (seq : Z) (v : string) (n : Z) (temp : nat)
  | Finished.

Module Paxos.

(** The attributes of a [Paxos] object.  [ProposeInfo] objects are
    mutable and are reached both through [propose_data] and through the
    frames of suspended generators, so they live in an object store
    ([heap]) and [propose_data] holds references.  [out] is the port
    inherited from [SingleDevice] ([None] when nothing is attached);
    [processes] are the [propose_timeout] closures handed to
    [env.process], each with the [seq] and [v] it captured.  The handles
    on the simulator ([env], [phase_restart_time]), [debug] and the two
    dictionaries of stores that no method uses are left out. *)
Record t := mk {
  peers : list string;
  me : Z;
  id : string;
  packet_id : Z;
  out : option (list Packet.t);
  max_seq_seen : Z;
  done_seqs : list Z;
  values : gmap Z string;
  accept_state : list (Z * State);
  propose_data : gmap Z nat;
  heap : list ProposeInfo.t;
  processes : list (Z * string);
}.

Definition set_packet_id (x : Z) (s : t) : t :=
  mk (peers s) (me s) (id s) x (out s) (max_seq_seen s) (done_seqs s)
     (values s) (accept_state s) (propose_data s) (heap s) (processes s).
Definition set_out (x : option (list Packet.t)) (s : t) : t :=
  mk (peers s) (me s) (id s) (packet_id s) x (max_seq_seen s) (done_seqs s)
     (values s) (accept_state s) (propose_data s) (heap s) (processes s).
Definition set_max_seq_seen (x : Z) (s : t) : t :=
  mk (peers s) (me s) (id s) (packet_id s) (out s) x (done_seqs s)
     (values s) (accept_state s) (propose_data s) (heap s) (processes s).
Definition set_done_seqs (x : list Z) (s : t) : t :=
  mk (peers s) (me s) (id s) (packet_id s) (out s) (max_seq_seen s) x
     (values s) (accept_state s) (propose_data s) (heap s) (processes s).
Definition set_values (x : gmap Z string) (s : t) : t :=
  mk (peers s) (me s) (id s) (packet_id s) (out s) (max_seq_seen s)
     (done_seqs s) x (accept_state s) (propose_data s) (heap s) (processes s).
Definition set_accept_state (x : list (Z * State)) (s : t) : t :=
  mk (peers s) (me s) (id s) (packet_id s) (out s) (max_seq_seen s)
     (done_seqs s) (values s) x (propose_data s) (heap s) (processes s).
Definition set_propose_data (x : gmap Z nat) (s : t) : t :=
  mk (peers s) (me s) (id s) (packet_id s) (out s) (max_seq_seen s)
     (done_seqs s) (values s) (accept_state s) x (heap s) (processes s).
Definition set_heap (x : list ProposeInfo.t) (s : t) : t :=
  mk (peers s) (me s) (id s) (packet_id s) (out s) (max_seq_seen s)
     (done_seqs s) (values s) (accept_state s) (propose_data s) x (processes s).
Definition set_processes (x : list (Z * string)) (s : t) : t :=
  mk (peers s) (me s) (id s) (packet_id s) (out s) (max_seq_seen s)
     (done_seqs s) (values s) (accept_state s) (propose_data s) (heap s) x.

(** *** State and exceptions *)

Inductive Res (A : Type) :=
  | Ok (a : A) (s : t)
  | Raise (e : Exn) (s : t).
Arguments Ok {A} a s.
Arguments Raise {A} e s.

Definition M (A : Type) : Type := t -> Res A.

Definition ret {A} (a : A) : M A := fun s => Ok a s.
Definition raise {A} (e : Exn) : M A := fun s => Raise e s.
Definition bind {A B} (m : M A) (f : A -> M B) : M B :=
  fun s => match m s with
           | Ok a s' => f a s'
           | Raise e s' => Raise e s'
           end.
Definition gets {A} (f : t -> A) : M A := fun s => Ok (f s) s.
Definition modify (f : t -> t) : M unit := fun s => Ok tt (f s).

(** The state a call leaves the peer in, whether it returned or raised. *)
Definition final {A} (r : Res A) : t :=
  match r with Ok _ s | Raise _ s => s end.

Declare Scope py_scope.
Delimit Scope py_scope with py.
Notation "'let*' x ':=' c1 'in' c2" := (bind c1 (fun x => c2))
  (at level 10, x name, c1 at level 100, c2 at level 200) : py_scope.
Notation "c1 >> c2" := (bind c1 (fun _ => c2))
  (at level 100, c2 at level 200, right associativity) : py_scope.
Open Scope py_scope.

(** A lookup that raises [e] when it fails. *)
Definition or_raise {A} (e : Exn) (o : option A) : M A :=
  match o with Some a => ret a | None => raise e end.

(** [assert b]. *)
Definition assert (b : bool) : M unit :=
  if b then ret tt else raise AssertionError.

(** Reading an attribute of a payload. *)
Definition attr {A} (o : option A) : M A := or_raise AttributeError o.

(** Objects of the store.  References are only made by [alloc] and the
    store never shrinks, so on the states the class reaches a reference
    of [propose_data] points into the store (lemma [wf_constructed]);
    [deref] of a dangling one is reported as [RuntimeError] to keep the
    function total. *)
Definition alloc (i : ProposeInfo.t) : M nat :=
  fun s => Ok (length (heap s)) (set_heap (heap s ++ [i]) s).
Definition deref (r : nat) : M ProposeInfo.t :=
  let* h := gets heap in or_raise RuntimeError (h !! r).
Definition update (r : nat) (f : ProposeInfo.t -> ProposeInfo.t) : M unit :=
  let* i := deref r in
  modify (fun s => set_heap (<[r := f i]> (heap s)) s).

(** [self.accept_state[seq]] and the writes to a field of that entry. *)
Definition get_state (seq : Z) : M State :=
  let* d := gets accept_state in or_raise KeyError (dict_get seq d).
Definition put_state (seq : Z) (x : State) : M unit :=
  modify (fun s => set_accept_state (dict_set seq x (accept_state s)) s).

(** [self.propose_data[seq]]. *)
Definition get_propose_data (seq : Z) : M nat :=
  let* d := gets propose_data in or_raise KeyError (d !! seq).

(** [assert self.out] and [self.out.put(pkt)]. *)
Definition assert_out : M unit :=
  let* o := gets out in
  assert (match o with Some _ => true | None => false end).
Definition out_put (pkt : Packet.t) : M unit :=
  let* o := gets out in
  match o with
  | Some q => modify (set_out (Some (q ++ [pkt])))
  | None => raise AttributeError
  end.

(** *** Methods *)

(** [__init__].  [out0] is the inherited port as the framework set it. *)
Definition __init__ (peers : list string) (me : Z)
    (out0 : option (list Packet.t)) : Exn + t :=
  match py_index peers me with
  | Some i => inr (mk peers me i 0 out0 0 [] ∅ [] ∅ [] [])
  | None => inl IndexError
  end.

Definition propose (seq : Z) (v : string) : Generator := Created seq v.

Definition start (seq : Z) (v : string) : M unit :=
  let* m := gets max_seq_seen in
  (if m <? seq then modify (set_max_seq_seen seq) else ret tt) >>
  let _ := propose seq v in
  ret tt.

Definition new_packet (payload : Payload) (dst : string) : M Packet.t :=
  modify (fun s => set_packet_id (packet_id s + 1) s) >>
  let* pid := gets packet_id in
  let* src := gets id in
  ret (Packet.mk 40 pid src dst payload).

Definition send_packet_to (payload : Payload) (peer : string) : M unit :=
  let* i := gets id in
  if decide (peer = i) then ret tt
  else
    let* pkt := new_packet payload peer in
    assert_out >>
    out_put pkt.

Definition recv_prepare (packet : Packet.t) : M unit :=
  let request := Packet.payload packet in
  let seq := Attr.instance request in
  let* n := attr (Attr.proposal request) in
  let* m := gets max_seq_seen in
  (if m <? seq then modify (set_max_seq_seen (Attr.instance request))
   else ret tt) >>
  let* state := get_state seq in
  let* reply :=
    if np state <? n then
      put_state seq (mkState n (na state) (va state)) >>
      ret (PrepareReply seq true (na state) (va state))
    else ret (PrepareReply seq false 0 "") in
  send_packet_to reply (Packet.src packet).

Definition recv_accept (packet : Packet.t) : M unit :=
  let request := Packet.payload packet in
  let seq := Attr.instance request in
  let* n := attr (Attr.proposal request) in
  let* v := attr (Attr.value request) in
  let* state := get_state seq in
  let* reply :=
    if np state <=? n then
      put_state seq (mkState n n v) >>
      ret (AcceptReply seq true)
    else ret (AcceptReply seq false) in
  send_packet_to reply (Packet.src packet).

Definition recv_prepare_reply (packet : Packet.t) : M unit :=
  let reply := Packet.payload packet in
  let seq := Attr.instance reply in
  let* temp := get_propose_data seq in
  let* ok := attr (Attr.ok reply) in
  if ok then
    let* n := attr (Attr.proposal reply) in
    let* i := deref temp in
    (if ProposeInfo.maxna i <? n then
       update temp (fun i => ProposeInfo.mk (ProposeInfo.packet_id i) n
         (ProposeInfo.v1 i) (ProposeInfo.prepare_count i)
         (ProposeInfo.prepared i) (ProposeInfo.accept_count i)
         (ProposeInfo.accepted i)) >>
       let* v := attr (Attr.value reply) in
       update temp (fun i => ProposeInfo.mk (ProposeInfo.packet_id i)
         (ProposeInfo.maxna i) v (ProposeInfo.prepare_count i)
         (ProposeInfo.prepared i) (ProposeInfo.accept_count i)
         (ProposeInfo.accepted i))
     else ret tt) >>
    update temp (fun i => ProposeInfo.mk (ProposeInfo.packet_id i)
      (ProposeInfo.maxna i) (ProposeInfo.v1 i) (ProposeInfo.prepare_count i + 1)
      (ProposeInfo.prepared i) (ProposeInfo.accept_count i)
      (ProposeInfo.accepted i)) >>
    let* i := deref temp in
    let* ps := gets peers in
    (* [prepare_count > len(self.peers) / 2], a true division *)
    if Z.of_nat (length ps) <? 2 * ProposeInfo.prepare_count i then
      update temp (fun i => ProposeInfo.mk (ProposeInfo.packet_id i)
        (ProposeInfo.maxna i) (ProposeInfo.v1 i) (ProposeInfo.prepare_count i)
        true (ProposeInfo.accept_count i) (ProposeInfo.accepted i))
    else ret tt
  else
    let* state := get_state seq in
    let* n := attr (Attr.proposal reply) in
    if np state <? n then put_state seq (mkState n (na state) (va state))
    else ret tt.

Definition recv_accept_reply (packet : Packet.t) : M unit :=
  let reply := Packet.payload packet in
  let seq := Attr.instance reply in
  let* temp := get_propose_data seq in
  let* ok := attr (Attr.ok reply) in
  if ok then
    update temp (fun i => ProposeInfo.mk (ProposeInfo.packet_id i)
      (ProposeInfo.maxna i) (ProposeInfo.v1 i) (ProposeInfo.prepare_count i)
      (ProposeInfo.prepared i) (ProposeInfo.accept_count i + 1)
      (ProposeInfo.accepted i)) >>
    let* i := deref temp in
    let* ps := gets peers in
    if Z.of_nat (length ps) <? 2 * ProposeInfo.accept_count i then
      update temp (fun i => ProposeInfo.mk (ProposeInfo.packet_id i)
        (ProposeInfo.maxna i) (ProposeInfo.v1 i) (ProposeInfo.prepare_count i)
        (ProposeInfo.prepared i) (ProposeInfo.accept_count i) true)
    else ret tt
  else ret tt.

Definition recv_decided_request (packet : Packet.t) : M unit :=
  let request := Packet.payload packet in
  let* v := attr (Attr.value request) in
  modify (fun s => set_values (<[Attr.instance request := v]> (values s)) s) >>
  let* ds := gets done_seqs in
  let* sender := attr (Attr.sender request) in
  let* k := or_raise IndexError (py_pos ds sender) in
  let* d := or_raise IndexError (ds !! k) in
  let* done_seq := attr (Attr.done_seq request) in
  if d <? done_seq then
    modify (fun s => set_done_seqs (<[k := done_seq]> (done_seqs s)) s)
  else ret tt.

(** [dprint] only prints, and only in debug mode. *)
Definition dprint : M unit := ret tt.

Definition put (packet : Packet.t) : M unit :=
  let payload := Packet.payload packet in
  let packet_id := Packet.packet_id packet in
  let* me := gets me in
  assert (bool_decide (Packet.dst packet = "")
          || py_eq_str_int (Packet.dst packet) me) >>
  (* [assert issubclass(type(payload), Instance)]: every [Payload] is one *)
  let seq := Attr.instance payload in
  let* r := get_propose_data seq in
  let* temp := deref r in
  if bool_decide (packet_id ≠ ProposeInfo.packet_id temp) then dprint
  else
    match payload with
    | PrepareRequest _ _ => recv_prepare packet
    | AcceptRequest _ _ _ => recv_accept packet
    | PrepareReply _ _ _ _ => recv_prepare_reply packet
    | AcceptReply _ _ => recv_accept_reply packet
    | DecidedRequest _ _ _ _ => recv_decided_request packet
    | Instance _ | DecidedReply _ => ret tt
    end.

Definition broadcast_prepare_request (seq n : Z) : M unit :=
  let request := PrepareRequest seq n in
  assert_out >>
  let* pkt := new_packet request "" in
  out_put pkt >>
  let* r := alloc (ProposeInfo.new (Packet.packet_id pkt)) in
  modify (fun s => set_propose_data (<[seq := r]> (propose_data s)) s) >>
  recv_prepare pkt.

Definition broadcast_accept_request (seq n : Z) (v : string) : M unit :=
  let request := AcceptRequest seq n v in
  assert_out >>
  let* d := gets propose_data in
  assert (match d !! seq with Some _ => true | None => false end) >>
  let* pkt := new_packet request "" in
  out_put pkt >>
  recv_accept pkt.

Definition broadcast_decide_request (seq : Z) (v : string) : M unit :=
  let* me := gets me in
  let* ds := gets done_seqs in
  let* d := or_raise IndexError (py_index ds me) in
  let request := DecidedRequest seq me d v in
  let* pkt := new_packet request "" in
  assert_out >>
  out_put pkt >>
  recv_decided_request pkt.

(** The loop of [do_mem_shrink].  A dictionary iterator raises
    [RuntimeError] on the first step it takes after the dictionary changed
    size; [used] is the size when the loop began and [ks] the keys not yet
    visited. *)
Fixpoint shrink_loop (used : nat) (mins : Z) (ks : list Z) : M unit :=
  let* d := gets accept_state in
  if bool_decide (length d ≠ used) then raise RuntimeError
  else
    match ks with
    | [] => ret tt
    | seq :: ks' =>
        (if seq <=? mins then
           (let* _ := get_state seq in
            modify (fun s => set_accept_state (dict_del seq (accept_state s)) s)) >>
           (let* vs := gets values in
            let* _ := or_raise KeyError (vs !! seq) in
            modify (fun s => set_values (delete seq (values s)) s))
         else ret tt) >>
        shrink_loop used mins ks'
    end.

Definition do_mem_shrink : M Z :=
  let* ds := gets done_seqs in
  let* mins := or_raise ValueError (py_min ds) in
  let* d := gets accept_state in
  shrink_loop (length d) mins (dict_keys d) >>
  ret (mins + 1).

Definition min : M Z :=
  let* m := do_mem_shrink in ret (m + 1).

Definition status (seq : Z) : M (Fate * string) :=
  let* m := min in
  if seq <? m then ret (FORGOTTEN, "")
  else
    let* vs := gets values in
    match vs !! seq with
    | Some v => ret (DECIDED, v)
    | None => ret (PENDING, "")
    end.

Definition is_decided (seq : Z) : M bool :=
  let* fv := status seq in
  ret (match fv.1 with DECIDED => true | _ => false end).

(** The body of the closure [propose_timeout] of [propose(seq, v)], from
    the moment its delay has elapsed.  Its last statement calls [propose],
    which builds a generator and drops it. *)
Definition propose_timeout (seq : Z) (v : string) : M unit :=
  let* d := gets propose_data in
  match d !! seq with
  | None => ret tt
  | Some temp =>
      let* i := deref temp in
      if negb (ProposeInfo.prepared i && ProposeInfo.accepted i) then
        update temp ProposeInfo.reset >>
        let _ := propose seq v in
        ret tt
      else ret tt
  end.

(** Resuming a generator made by [propose]: the body runs to its next
    [yield] (both yields wait on [finish_channel.get()]) or to its end,
    where the resumption raises [StopIteration]. *)
Definition next (g : Generator) : M Generator :=
  match g with
  | Created seq v =>
      let* state := get_state seq in
      let n := np state + 1 in
      broadcast_prepare_request seq n >>
      modify (fun s => set_processes (processes s ++ [(seq, v)]) s) >>
      let* temp := get_propose_data seq in
      ret (AtPrepared seq v n temp)
  | AtPrepared seq v n temp =>
      let* i := deref temp in
      assert (ProposeInfo.prepared i) >>
      broadcast_accept_request seq n v >>
      ret (AtAccepted seq v n temp)
  | AtAccepted seq v n temp =>
      let* i := deref temp in
      assert (ProposeInfo.accepted i) >>
      broadcast_decide_request seq v >>
      raise StopIteration
  | Finished => raise StopIteration
  end.

(** [run] is [pass]. *)
Definition run : M unit := ret tt.

(** *** Calls

    Every method of the class as a call on a peer, and the state a
    sequence of calls leaves behind. *)
Inductive Call :=
  | CRun
  | CStart (seq : Z) (v : string)
  | CPropose (seq : Z) (v : string)
  | CNext (g : Generator)
  | CProposeTimeout (seq : Z) (v : string)
  | CDoMemShrink
  | CMin
  | CStatus (seq : Z)
  | CIsDecided (seq : Z)
  | CNewPacket (payload : Payload) (dst : string)
  | CBroadcastPrepareRequest (seq n : Z)
  | CBroadcastAcceptRequest (seq n : Z) (v : string)
  | CBroadcastDecideRequest (seq : Z) (v : string)
  | CSendPacketTo (payload : Payload) (peer : string)
  | CRecvPrepare (packet : Packet.t)
  | CRecvAccept (packet : Packet.t)
  | CRecvPrepareReply (packet : Packet.t)
  | CRecvAcceptReply (packet : Packet.t)
  | CRecvDecidedRequest (packet : Packet.t)
  | CPut (packet : Packet.t)
  | CDprint.

Definition exec (c : Call) (s : t) : t :=
  match c with
  | CRun => final (run s)
  | CStart seq v => final (start seq v s)
  | CPropose seq v => let _ := propose seq v in s
  | CNext g => final (next g s)
  | CProposeTimeout seq v => final (propose_timeout seq v s)
  | CDoMemShrink => final (do_mem_shrink s)
  | CMin => final (min s)
  | CStatus seq => final (status seq s)
  | CIsDecided seq => final (is_decided seq s)
  | CNewPacket payload dst => final (new_packet payload dst s)
  | CBroadcastPrepareRequest seq n => final (broadcast_prepare_request seq n s)
  | CBroadcastAcceptRequest seq n v => final (broadcast_accept_request seq n v s)
  | CBroadcastDecideRequest seq v => final (broadcast_decide_request seq v s)
  | CSendPacketTo payload peer => final (send_packet_to payload peer s)
  | CRecvPrepare packet => final (recv_prepare packet s)
  | CRecvAccept packet => final (recv_accept packet s)
  | CRecvPrepareReply packet => final (recv_prepare_reply packet s)
  | CRecvAcceptReply packet => final (recv_accept_reply packet s)
  | CRecvDecidedRequest packet => final (recv_decided_request packet s)
  | CPut packet => final (put packet s)
  | CDprint => final (dprint s)
  end.

Definition exec_all (cs : list Call) (s : t) : t :=
  foldl (fun s c => exec c s) s cs.

End Paxos.

(** * Vocabulary of the properties *)

Import Paxos.

(** ** Relations between the state before and after a call *)

(** A computation keeps a relation between the state it starts in and the
    state it leaves, on every path, raising or not. *)
Definition preserves (R : t -> t -> Prop) {A} (m : M A) : Prop :=
  forall s, R s (final (m s)).

(** The table of acceptor states never gains a key. *)
Definition no_new_state (s s' : t) : Prop :=
  forall k, is_Some (dict_get k (accept_state s')) ->
            is_Some (dict_get k (accept_state s)).

(** The list of done watermarks keeps its length. *)
Definition same_done_length (s s' : t) : Prop :=
  length (done_seqs s') = length (done_seqs s).

(** The peer list, the peer's index and its identifier are never written. *)
Definition same_identity (s s' : t) : Prop :=
  peers s' = peers s /\ me s' = me s /\ id s' = id s.

(** The object [r] of the store is not written. *)
Definition same_object (r : nat) (s s' : t) : Prop :=
  forall i, heap s !! r = Some i -> heap s' !! r = Some i.

(** Every reference held by [propose_data] points into the store. *)
Definition wf (s : t) : Prop :=
  forall seq r, propose_data s !! seq = Some r -> (r < length (heap s))%nat.

Definition wf_keeps (s s' : t) : Prop := wf s -> wf s'.

(** The state after the object [r] was overwritten with [i]. *)
Definition write (r : nat) (i : ProposeInfo.t) (s : t) : t :=
  set_heap (<[r := i]> (heap s)) s.

(** The calls that reach a peer from outside: the application's, and the
    transport's [put].  Nothing else starts a computation on a peer: the
    generators of [propose] and the timeout closures run only if somebody
    holds them, and [start] drops the generator it makes. *)
Definition entry_call (c : Call) : Prop :=
  match c with
  | CRun | CStart _ _ | CPropose _ _ | CDoMemShrink | CMin | CStatus _
  | CIsDecided _ | CPut _ | CDprint => True
  | _ => False
  end.

(** ** Quantities that only grow *)

(** The done watermarks: the list keeps its length and no entry is
    lowered. *)
Definition watermarks_le (s s' : t) : Prop :=
  length (done_seqs s') = length (done_seqs s) /\
  forall k d, done_seqs s !! k = Some d ->
              exists d', done_seqs s' !! k = Some d' /\ d <= d'.

Definition max_seq_seen_le (s s' : t) : Prop :=
  max_seq_seen s <= max_seq_seen s'.

(** The packet ids of [q] go strictly up, from above [lo] to at most
    [hi]. *)
Fixpoint ids_between (lo : Z) (q : list Packet.t) (hi : Z) : Prop :=
  match q with
  | [] => lo <= hi
  | p :: q' => lo < Packet.packet_id p /\ ids_between (Packet.packet_id p) q' hi
  end.

(** What a call may do to the port: nothing to a port that is not
    attached; otherwise append packets made by this peer, numbered upwards
    from the packet counter. *)
Definition sent (s s' : t) : Prop :=
  id s' = id s /\
  match out s with
  | None => out s' = None /\ packet_id s <= packet_id s'
  | Some q =>
      exists new,
        out s' = Some (q ++ new) /\
        ids_between (packet_id s) new (packet_id s') /\
        Forall (fun p => Packet.src p = id s) new
  end.

(** The first key at or below [mins], in the order of the dictionary. *)
Fixpoint first_at_most (mins : Z) (ks : list Z) : option Z :=
  match ks with
  | [] => None
  | k :: ks' => if k <=? mins then Some k else first_at_most mins ks'
  end.

(** The tokens of the [ProposeInfo] objects made so far, oldest first. *)
Definition tokens (s : t) : list Z := ProposeInfo.packet_id <$> heap s.

(** The numbers of [l] go strictly up, from above [lo] to at most [hi]. *)
Fixpoint rising (lo : Z) (l : list Z) (hi : Z) : Prop :=
  match l with
  | [] => lo <= hi
  | k :: l' => lo < k /\ rising k l' hi
  end.

(** What a call may do to the rounds: the objects there keep their
    tokens, and the new ones take tokens numbered upwards from the packet
    counter. *)
Definition rounds_grow (s s' : t) : Prop :=
  exists new,
    tokens s' = tokens s ++ new /\ rising (packet_id s) new (packet_id s').

(** ** The table of acceptor states *)

(** Two parts of C9 as the claim has them: the table is only read, and on
    a freshly constructed peer the read of [accept_state[seq]] in
    [propose] is reached from [start], which then raises [KeyError]. *)
Definition accept_state_only_read : Prop :=
  forall c s, accept_state (exec c s) = accept_state s.

Definition read_reached_from_start : Prop :=
  forall peers0 me0 out0 s seq v,
    __init__ peers0 me0 out0 = inr s ->
    exists s', start seq v s = Raise KeyError s'.

(** ** The acceptor handlers *)

(** The three handlers that write to an entry of [accept_state]. *)
Definition acceptor_call (c : Call) : Prop :=
  match c with
  | CRecvPrepare _ | CRecvAccept _ | CRecvPrepareReply _ => True
  | _ => False
  end.

(** What one such call does to the table: nothing, a promise (only [np]
    moves, upwards), or an acceptance by [recv_accept] of a proposal that
    is not below [np]. *)
Inductive acceptor_step (c : Call) (d : list (Z * State)) :
    list (Z * State) -> Prop :=
  | step_none : acceptor_step c d d
  | step_promise k x n :
      dict_get k d = Some x -> np x < n ->
      acceptor_step c d (dict_set k (mkState n (na x) (va x)) d)
  | step_accept packet k x n v :
      c = CRecvAccept packet ->
      Attr.instance (Packet.payload packet) = k ->
      Attr.proposal (Packet.payload packet) = Some n ->
      Attr.value (Packet.payload packet) = Some v ->
      dict_get k d = Some x -> np x <= n ->
      acceptor_step c d (dict_set k (mkState n n v) d).

(** The third part of C6 as the claim has it: a value that is set changes
    only under an Accept whose number is strictly above the entry's [na]. *)
Definition va_changes_only_above_na : Prop :=
  forall c s k x x',
    acceptor_call c ->
    dict_get k (accept_state s) = Some x ->
    na x <= np x ->
    va x ≠ "" ->
    dict_get k (accept_state (exec c s)) = Some x' ->
    va x' ≠ va x ->
    exists packet n,
      c = CRecvAccept packet /\
      Attr.proposal (Packet.payload packet) = Some n /\
      na x < n.

(** ** Rounds and the replies tallied into them *)

(** The data of a round as [broadcast_prepare_request] makes it. *)
Definition fresh_round (i : ProposeInfo.t) : Prop :=
  ProposeInfo.prepare_count i = 0 /\ ProposeInfo.prepared i = false /\
  ProposeInfo.accept_count i = 0 /\ ProposeInfo.accepted i = false.

(** The round's data after [recv_prepare_reply] tallied an affirmative
    reply that reports the pair [(n, v)], among [len] peers. *)
Definition tally_prepare (len : nat) (n : Z) (v : string)
    (i : ProposeInfo.t) : ProposeInfo.t :=
  let maxna' := if ProposeInfo.maxna i <? n then n else ProposeInfo.maxna i in
  let v1' := if ProposeInfo.maxna i <? n then v else ProposeInfo.v1 i in
  let count := ProposeInfo.prepare_count i + 1 in
  ProposeInfo.mk (ProposeInfo.packet_id i) maxna' v1' count
    (if Z.of_nat len <? 2 * count then true else ProposeInfo.prepared i)
    (ProposeInfo.accept_count i) (ProposeInfo.accepted i).

(** The round's data after [recv_accept_reply] tallied an affirmative
    reply. *)
Definition tally_accept (len : nat) (i : ProposeInfo.t) : ProposeInfo.t :=
  let count := ProposeInfo.accept_count i + 1 in
  ProposeInfo.mk (ProposeInfo.packet_id i) (ProposeInfo.maxna i)
    (ProposeInfo.v1 i) (ProposeInfo.prepare_count i) (ProposeInfo.prepared i)
    count (if Z.of_nat len <? 2 * count then true else ProposeInfo.accepted i).

(** A round is the [ProposeInfo] object that [broadcast_prepare_request]
    made for it; [r] is its reference.  The replies that a call tallies
    into the round: [recv_prepare_reply] counts a packet whose payload is
    an affirmative [PrepareReply] for an instance that [propose_data] maps
    to [r]; [recv_accept_reply] reads [instance] and [ok] only; [put]
    hands a packet to them when it is not addressed, its id is the token
    of the instance's round, and its payload has the matching type. *)
Definition prepare_reply_for (r : nat) (packet : Packet.t) (s : t) : bool :=
  match Packet.payload packet with
  | PrepareReply seq true _ _ => bool_decide (propose_data s !! seq = Some r)
  | _ => false
  end.

Definition accept_reply_for (r : nat) (packet : Packet.t) (s : t) : bool :=
  match Attr.ok (Packet.payload packet) with
  | Some true =>
      bool_decide
        (propose_data s !! Attr.instance (Packet.payload packet) = Some r)
  | _ => false
  end.

Definition passes_put (packet : Packet.t) (s : t) : bool :=
  bool_decide (Packet.dst packet = "") &&
  match propose_data s !! Attr.instance (Packet.payload packet) with
  | Some r' =>
      match heap s !! r' with
      | Some temp =>
          bool_decide (Packet.packet_id packet = ProposeInfo.packet_id temp)
      | None => false
      end
  | None => false
  end.

(** The instance that a call made at state [s] shows to the peer's
    [max_seq_seen]: the one passed to [start], or the one of the request
    that [recv_prepare] handles in the course of the call.  [recv_prepare]
    runs in a direct call (it reads [proposal] before it compares), in
    [put] of a [PrepareRequest] that passes the checks of [put], in
    [broadcast_prepare_request] on a peer with a port, and in the first
    resumption of a generator of [propose] on a peer with a port and an
    acceptor entry for the instance. *)
Definition shows_instance (c : Call) (s : t) : option Z :=
  match c with
  | CStart seq _ => Some seq
  | CRecvPrepare packet =>
      match Attr.proposal (Packet.payload packet) with
      | Some _ => Some (Attr.instance (Packet.payload packet))
      | None => None
      end
  | CPut packet =>
      match Packet.payload packet with
      | PrepareRequest seq _ => if passes_put packet s then Some seq else None
      | _ => None
      end
  | CBroadcastPrepareRequest seq _ =>
      match out s with
      | Some _ => Some seq
      | None => None
      end
  | CNext (Created seq _) =>
      match dict_get seq (accept_state s), out s with
      | Some _, Some _ => Some seq
      | _, _ => None
      end
  | _ => None
  end.

Definition tallies_prepare (r : nat) (c : Call) (s : t) : option Packet.t :=
  match c with
  | CRecvPrepareReply packet =>
      if prepare_reply_for r packet s then Some packet else None
  | CPut packet =>
      if passes_put packet s && prepare_reply_for r packet s
      then Some packet else None
  | _ => None
  end.

Definition tallies_accept (r : nat) (c : Call) (s : t) : option Packet.t :=
  match c with
  | CRecvAcceptReply packet =>
      if accept_reply_for r packet s then Some packet else None
  | CPut packet =>
      match Packet.payload packet with
      | AcceptReply _ _ =>
          if passes_put packet s && accept_reply_for r packet s
          then Some packet else None
      | _ => None
      end
  | _ => None
  end.

(** The affirmative replies tallied into round [r] along a sequence of
    calls, in order. *)
Fixpoint prepare_tally (r : nat) (cs : list Call) (s : t) : list Packet.t :=
  match cs with
  | [] => []
  | c :: cs' =>
      option_list (tallies_prepare r c s) ++ prepare_tally r cs' (exec c s)
  end.

Fixpoint accept_tally (r : nat) (cs : list Call) (s : t) : list Packet.t :=
  match cs with
  | [] => []
  | c :: cs' =>
      option_list (tallies_accept r c s) ++ accept_tally r cs' (exec c s)
  end.

(** What one call does to the data of round [r], by what it tallies. *)
Definition round_step (len : nat) (tp ta : option Packet.t)
    (i i' : ProposeInfo.t) : Prop :=
  match tp, ta with
  | Some _, _ => exists n v, i' = tally_prepare len n v i
  | None, Some _ => i' = tally_accept len i
  | None, None => i' = i \/ i' = ProposeInfo.reset i
  end.

(** The invariant of a round: each counter is at most the number of
    replies tallied so far, and a flag is set only with its counter above
    half the number of peers. *)
Definition tally_inv (len : nat) (kp ka : nat) (i : ProposeInfo.t) : Prop :=
  0 <= ProposeInfo.prepare_count i <= Z.of_nat kp /\
  0 <= ProposeInfo.accept_count i <= Z.of_nat ka /\
  (ProposeInfo.prepared i = true ->
   Z.of_nat len < 2 * ProposeInfo.prepare_count i) /\
  (ProposeInfo.accepted i = true ->
   Z.of_nat len < 2 * ProposeInfo.accept_count i).

(** C7 as the claim has it, for the Prepare phase: the round is prepared
    only with affirmative replies tallied from more than half of the
    peers, counting each replying peer once. *)
Definition prepared_by_distinct_repliers : Prop :=
  forall cs s r i i',
    heap s !! r = Some i ->
    fresh_round i ->
    heap (exec_all cs s) !! r = Some i' ->
    ProposeInfo.prepared i' = true ->
    Z.of_nat (length (peers s)) / 2 + 1 <=
      Z.of_nat (length (remove_dups (Packet.src <$> prepare_tally r cs s))).

(** ** Peers and calls used as examples *)

(** A peer of three as [__init__] makes it, with a port attached. *)
Definition fresh3 : t :=
  mk ["a"; "b"; "c"] 0 "a" 0 (Some []) 0 [] ∅ [] ∅ [] [].

(** A peer of three whose watermarks are 3, 5 and 4. *)
Definition watermarks354 : t :=
  mk ["a"; "b"; "c"] 0 "a" 0 (Some []) 0 [3; 5; 4] ∅ [] ∅ [] [].

(** An acceptor that promised 5 for instance 7 and accepted ["x"] under 2. *)
Definition promised5 : t :=
  mk ["a"; "b"; "c"] 0 "a" 0 (Some []) 7 [] ∅ [(7, mkState 5 2 "x")] ∅ [] [].

(** An acceptor that accepted ["x"] under proposal 5 for instance 7. *)
Definition accepted5 : t :=
  mk ["a"; "b"; "c"] 0 "a" 0 (Some []) 7 [] ∅ [(7, mkState 5 5 "x")] ∅ [] [].

(** A peer in round 1 of instance 7, having promised 1 to itself. *)
Definition round1 : t :=
  mk ["a"; "b"; "c"] 0 "a" 1 (Some []) 7 [] ∅ [(7, mkState 1 0 "")]
     {[7 := 0%nat]} [ProposeInfo.new 1] [].

(** A peer with watermarks 3, 5 and 4 whose acceptor table holds instance
    6 only, and with values recorded for instances 4 and 6. *)
Definition settled : t :=
  mk ["a"; "b"; "c"] 0 "a" 0 (Some []) 0 [3; 5; 4]
     {[4 := "w"; 6 := "v"]} [(6, mkState 1 1 "v")] ∅ [] [].

(** A peer with watermarks 3, 5 and 4 whose acceptor table still holds
    instances 2 and 1, and a value for instance 2. *)
Definition to_shrink : t :=
  mk ["a"; "b"; "c"] 0 "a" 0 (Some []) 0 [3; 5; 4] {[2 := "a"]}
     [(6, mkState 1 1 "v"); (2, mkState 1 1 "a"); (1, mkState 0 0 "")]
     ∅ [] [].

(** The same affirmative reply of peer b, handed to [recv_prepare_reply]
    twice. *)
Definition twice_from_b : list Call :=
  [ CRecvPrepareReply (Packet.mk 40 1 "b" "" (PrepareReply 7 true 0 ""));
    CRecvPrepareReply (Packet.mk 40 1 "b" "" (PrepareReply 7 true 0 "")) ].

(** A proposer of three peers that promised 5 for instance 12, and the
    calls of a round for the value ["new"]: the generator of
    [propose(12, "new")] is resumed, peer c answers the Prepare with the
    pair (5, "x") it accepted, peer b answers with nothing accepted. *)
Definition before_round : t :=
  mk ["a"; "b"; "c"] 0 "a" 0 (Some []) 0 [] ∅ [(12, mkState 5 0 "")] ∅ [] [].

Definition prepare_phase : list Call :=
  [ CNext (propose 12 "new");
    CRecvPrepareReply (Packet.mk 40 1 "c" "" (PrepareReply 12 true 5 "x"));
    CRecvPrepareReply (Packet.mk 40 1 "b" "" (PrepareReply 12 true 0 "")) ].

(** Two affirmative answers to the Prepare of [round1]: peer c reports the
    pair (5, "x") it accepted, peer b reports nothing accepted. *)
Definition replies_c_b : list Packet.t :=
  [ Packet.mk 40 1 "c" "" (PrepareReply 7 true 5 "x");
    Packet.mk 40 1 "b" "" (PrepareReply 7 true 0 "") ].

(** Two affirmative answers of peer b to the Accept of [round1]. *)
Definition accepts_b_b : list Packet.t :=
  [ Packet.mk 40 1 "b" "" (AcceptReply 7 true);
    Packet.mk 40 2 "b" "" (AcceptReply 7 true) ].

(** A proposer of three peers with a port, watermarks 3, 5 and 4 and an
    acceptor entry for instance 12, and the replies of peers c and b to
    its Prepare and to its Accept. *)
Definition ready_proposer : t :=
  mk ["a"; "b"; "c"] 0 "a" 0 (Some []) 0 [3; 5; 4] ∅
     [(12, mkState 5 0 "")] ∅ [] [].

Definition promises_12 : list Packet.t :=
  [ Packet.mk 40 1 "c" "" (PrepareReply 12 true 5 "x");
    Packet.mk 40 1 "b" "" (PrepareReply 12 true 0 "") ].

Definition accepts_12 : list Packet.t :=
  [ Packet.mk 40 1 "c" "" (AcceptReply 12 true);
    Packet.mk 40 1 "b" "" (AcceptReply 12 true) ].

(** ** Several peers

    Packets travel from the port of the peer that sent them to the handler
    of their type on a peer they are for. *)

(** The packet a peer put on its port last, when it is for everybody
    ([last_broadcast]) or for the peer [to] ([last_sent_to]). *)
Definition last_broadcast (s : t) : option Packet.t :=
  q ← out s; p ← last q;
  if decide (Packet.dst p = "") then Some p else None.

Definition last_sent_to (to : t) (s : t) : option Packet.t :=
  q ← out s; p ← last q;
  if decide (Packet.dst p = id to) then Some p else None.

(** A call of a handler that returns. *)
Definition returns (m : M unit) (s : t) : option t :=
  match m s with
  | Ok _ s' => Some s'
  | Raise _ _ => None
  end.

(** A resumption that stops at a [yield], and one that runs the generator
    to its end. *)
Definition resumed (g : Generator) (s : t) : option (Generator * t) :=
  match next g s with
  | Ok g' s' => Some (g', s')
  | Raise _ _ => None
  end.

Definition finished (g : Generator) (s : t) : option t :=
  match next g s with
  | Raise StopIteration s' => Some s'
  | _ => None
  end.

(** A proposal of peer [p] carried through with the peers [x] and [y]:
    the generator of [propose(seq, v)] is resumed on [p]; [x] and [y]
    handle the Prepare it broadcast and [p] handles their replies; the
    generator is resumed; [x] and [y] handle the Accept it broadcast and
    [p] handles their replies; the generator is resumed to its end.  The
    Decided request stays on the port of [p]. *)
Definition carried_proposal (seq : Z) (v : string) (p x y : t)
    : option (t * t * t) :=
  '(g1, p) ← resumed (propose seq v) p;
  prepare ← last_broadcast p;
  x ← returns (recv_prepare prepare) x;
  y ← returns (recv_prepare prepare) y;
  rx ← last_sent_to p x;
  ry ← last_sent_to p y;
  p ← returns (recv_prepare_reply rx) p;
  p ← returns (recv_prepare_reply ry) p;
  '(g2, p) ← resumed g1 p;
  accept ← last_broadcast p;
  x ← returns (recv_accept accept) x;
  y ← returns (recv_accept accept) y;
  rx ← last_sent_to p x;
  ry ← last_sent_to p y;
  p ← returns (recv_accept_reply rx) p;
  p ← returns (recv_accept_reply ry) p;
  p ← finished g2 p;
  Some (p, x, y).

(** A peer of three with a port, the watermark [-1] for every peer (what
    the docstring of [min] gives a peer that never called [done()]) and
    the acceptor state [(0, 0, "")] for instance 12. *)
Definition seeded (me : Z) (id : string) : t :=
  mk ["a"; "b"; "c"] me id 0 (Some []) 0 [-1; -1; -1] ∅
     [(12, mkState 0 0 "")] ∅ [] [].

(** Peer a proposes ["alpha"] for instance 12 and carries it through with
    b and c; then peer b proposes ["beta"] for the same instance and
    carries it through with a and c.  The result is the three peers a, b
    and c. *)
Definition alpha_then_beta : option (t * t * t) :=
  '(a, b, c) ← carried_proposal 12 "alpha"
                 (seeded 0 "a") (seeded 1 "b") (seeded 2 "c");
  '(b, a, c) ← carried_proposal 12 "beta" b a c;
  Some (a, b, c).

(** * Proofs *)

(** ** Relations that every write of the class keeps *)

Section Stable.
Variable R : t -> t -> Prop.
Hypothesis R_refl : forall s, R s s.
Hypothesis R_trans : forall s1 s2 s3, R s1 s2 -> R s2 s3 -> R s1 s3.
Hypothesis R_packet_id : forall x s, R s (set_packet_id x s).
Hypothesis R_out : forall x s, R s (set_out x s).
Hypothesis R_max_seq_seen : forall x s, R s (set_max_seq_seen x s).
Hypothesis R_processes : forall x s, R s (set_processes x s).
Hypothesis R_propose_data : forall x s, R s (set_propose_data x s).
Hypothesis R_values : forall x s, R s (set_values x s).
Hypothesis R_alloc : forall i s, R s (set_heap (heap s ++ [i]) s).
Hypothesis R_update : forall r i s, R s (set_heap (<[r := i]> (heap s)) s).
Hypothesis R_dict_set :
  forall k x s, R s (set_accept_state (dict_set k x (accept_state s)) s).
Hypothesis R_dict_del :
  forall k s, R s (set_accept_state (dict_del k (accept_state s)) s).
Hypothesis R_done_seqs :
  forall k x s, R s (set_done_seqs (<[k := x]> (done_seqs s)) s).

Lemma preserves_ret {A} (a : A) : preserves R (ret a).
Proof. intros s. apply R_refl. Qed.

Lemma preserves_raise {A} e : preserves R (@raise A e).
Proof. intros s. apply R_refl. Qed.

Lemma preserves_gets {A} (f : t -> A) : preserves R (gets f).
Proof. intros s. apply R_refl. Qed.

Lemma preserves_bind {A B} (m : M A) (f : A -> M B) :
  preserves R m -> (forall a, preserves R (f a)) -> preserves R (bind m f).
Proof.
  intros Hm Hf s. unfold bind. specialize (Hm s).
  destruct (m s) as [a s'|e s']; cbn in *; [|done].
  eapply R_trans; [exact Hm|apply Hf].
Qed.

Lemma preserves_modify (f : t -> t) :
  (forall s, R s (f s)) -> preserves R (modify f).
Proof. intros H s. apply H. Qed.

Lemma preserves_or_raise {A} e (o : option A) : preserves R (or_raise e o).
Proof. destruct o; [apply preserves_ret|apply preserves_raise]. Qed.

Lemma preserves_assert b : preserves R (assert b).
Proof. destruct b; [apply preserves_ret|apply preserves_raise]. Qed.

Lemma preserves_alloc i : preserves R (alloc i).
Proof. intros s. apply R_alloc. Qed.

Create HintDb pres discriminated.
Hint Resolve preserves_ret preserves_raise preserves_gets
  preserves_or_raise preserves_assert preserves_alloc : pres.

(** One step through a computation: split a [bind], close a primitive,
    or case on the scrutinee of a branch. *)
Ltac pres_step :=
  match goal with
  | |- preserves _ (bind _ _) => apply preserves_bind; [|intros ?]
  | |- preserves _ (modify _) => apply preserves_modify; intros ?
  | |- preserves _ (attr _) => apply preserves_or_raise
  | |- preserves _ (if ?b then _ else _) => destruct b
  | |- preserves _ (match ?x with _ => _ end) => destruct x
  | |- preserves _ _ => solve [eauto with pres]
  end.
Ltac pres := cbv zeta; repeat pres_step; try done.

Lemma preserves_deref r : preserves R (deref r).
Proof. unfold deref. pres. Qed.
Hint Resolve preserves_deref : pres.

Lemma preserves_update r f : preserves R (update r f).
Proof. unfold update. pres. Qed.

Lemma preserves_get_state seq : preserves R (get_state seq).
Proof. unfold get_state. pres. Qed.

Lemma preserves_put_state seq x : preserves R (put_state seq x).
Proof. unfold put_state. pres. Qed.

Lemma preserves_get_propose_data seq : preserves R (get_propose_data seq).
Proof. unfold get_propose_data. pres. Qed.

Lemma preserves_assert_out : preserves R assert_out.
Proof. unfold assert_out. pres. Qed.

Lemma preserves_out_put pkt : preserves R (out_put pkt).
Proof. unfold out_put. pres. Qed.

Hint Resolve preserves_update preserves_get_state preserves_put_state
  preserves_get_propose_data preserves_assert_out preserves_out_put : pres.

Lemma preserves_new_packet payload dst : preserves R (new_packet payload dst).
Proof. unfold new_packet. pres. Qed.
Hint Resolve preserves_new_packet : pres.

Lemma preserves_send_packet_to payload peer :
  preserves R (send_packet_to payload peer).
Proof. unfold send_packet_to. pres. Qed.
Hint Resolve preserves_send_packet_to : pres.

Lemma preserves_recv_prepare packet : preserves R (recv_prepare packet).
Proof. unfold recv_prepare. pres. Qed.

Lemma preserves_recv_accept packet : preserves R (recv_accept packet).
Proof. unfold recv_accept. pres. Qed.

Lemma preserves_recv_prepare_reply packet :
  preserves R (recv_prepare_reply packet).
Proof. unfold recv_prepare_reply. pres. Qed.

Lemma preserves_recv_accept_reply packet :
  preserves R (recv_accept_reply packet).
Proof. unfold recv_accept_reply. pres. Qed.

Lemma preserves_recv_decided_request packet :
  preserves R (recv_decided_request packet).
Proof. unfold recv_decided_request. pres. Qed.

Hint Resolve preserves_recv_prepare preserves_recv_accept
  preserves_recv_prepare_reply preserves_recv_accept_reply
  preserves_recv_decided_request : pres.

Lemma preserves_put packet : preserves R (put packet).
Proof. unfold put, dprint. pres. Qed.

Lemma preserves_broadcast_prepare_request seq n :
  preserves R (broadcast_prepare_request seq n).
Proof. unfold broadcast_prepare_request. pres. Qed.

Lemma preserves_broadcast_accept_request seq n v :
  preserves R (broadcast_accept_request seq n v).
Proof. unfold broadcast_accept_request. pres. Qed.

Lemma preserves_broadcast_decide_request seq v :
  preserves R (broadcast_decide_request seq v).
Proof. unfold broadcast_decide_request. pres. Qed.

Lemma preserves_shrink_loop used mins ks :
  preserves R (shrink_loop used mins ks).
Proof. induction ks as [|seq ks IH]; cbn [shrink_loop]; pres. Qed.
Hint Resolve preserves_shrink_loop : pres.

Lemma preserves_do_mem_shrink : preserves R do_mem_shrink.
Proof. unfold do_mem_shrink. pres. Qed.
Hint Resolve preserves_do_mem_shrink : pres.

Lemma preserves_min : preserves R min.
Proof. unfold min. pres. Qed.
Hint Resolve preserves_min : pres.

Lemma preserves_status seq : preserves R (status seq).
Proof. unfold status. pres. Qed.
Hint Resolve preserves_status : pres.

Lemma preserves_is_decided seq : preserves R (is_decided seq).
Proof. unfold is_decided. pres. Qed.

Lemma preserves_propose_timeout seq v : preserves R (propose_timeout seq v).
Proof. unfold propose_timeout. pres. Qed.

Hint Resolve preserves_put preserves_broadcast_prepare_request
  preserves_broadcast_accept_request preserves_broadcast_decide_request
  preserves_is_decided preserves_propose_timeout : pres.

Lemma preserves_next g : preserves R (next g).
Proof. unfold next. pres. Qed.

Lemma preserves_start seq v : preserves R (start seq v).
Proof. unfold start. pres. Qed.

(** Every method keeps the relation, and so does every sequence of calls. *)
Lemma stable_exec c s : R s (exec c s).
Proof.
  destruct c; cbn [exec];
    try (apply R_refl);
    [ apply preserves_start | apply preserves_next
    | apply preserves_propose_timeout | apply preserves_do_mem_shrink
    | apply preserves_min | apply preserves_status | apply preserves_is_decided
    | apply preserves_new_packet | apply preserves_broadcast_prepare_request
    | apply preserves_broadcast_accept_request
    | apply preserves_broadcast_decide_request | apply preserves_send_packet_to
    | apply preserves_recv_prepare | apply preserves_recv_accept
    | apply preserves_recv_prepare_reply | apply preserves_recv_accept_reply
    | apply preserves_recv_decided_request | apply preserves_put ].
Qed.

Lemma stable_exec_all cs s : R s (exec_all cs s).
Proof.
  revert s. induction cs as [|c cs IH]; intros s; cbn.
  - apply R_refl.
  - eapply R_trans; [apply stable_exec|apply IH].
Qed.

End Stable.

(** ** Dictionary facts *)

Section DictFacts.
Context {V : Type}.
Implicit Types (d : list (Z * V)) (k : Z).

Lemma dict_get_set d k k' x :
  dict_get k' (dict_set k x d) =
    if decide (k' = k) then (fun _ => x) <$> dict_get k d
    else dict_get k' d.
Proof.
  induction d as [|[k0 v0] d IH]; cbn.
  - by case_decide.
  - repeat (case_decide; cbn in *; subst); try done; try congruence.
    all: rewrite IH; case_decide; done.
Qed.

Lemma dict_get_set_eq d k x v :
  dict_get k d = Some v -> dict_get k (dict_set k x d) = Some x.
Proof. intros H. rewrite dict_get_set, decide_True, H by done. done. Qed.

Lemma dict_get_set_ne d k k' x :
  k' ≠ k -> dict_get k' (dict_set k x d) = dict_get k' d.
Proof. intros H. by rewrite dict_get_set, decide_False. Qed.

Lemma dict_get_del d k k' :
  dict_get k' (dict_del k d) = if decide (k' = k) then None else dict_get k' d.
Proof.
  unfold dict_del. induction d as [|[k0 v0] d IH].
  - cbn. by case_decide.
  - rewrite filter_cons. cbn.
    repeat (case_decide; cbn in *; subst); try done; try congruence.
Qed.

Lemma dict_get_keys d k : is_Some (dict_get k d) <-> k ∈ dict_keys d.
Proof.
  unfold dict_keys. induction d as [|[k0 v0] d IH]; cbn.
  - split; [intros [? ?]; done|intros H; by apply elem_of_nil in H].
  - rewrite elem_of_cons. destruct (decide (k0 = k)) as [->|Hne].
    + split; eauto.
    + rewrite IH. split; [by right|]. intros [Heq|Hin]; [by subst|done].
Qed.

Lemma dict_del_length d k :
  is_Some (dict_get k d) -> (length (dict_del k d) < length d)%nat.
Proof.
  unfold dict_del. induction d as [|[k0 v0] d IH].
  - by intros [? ?].
  - rewrite filter_cons. cbn. intros H.
    destruct (decide (k0 = k)) as [->|Hne].
    + rewrite decide_False by naive_solver.
      pose proof (length_filter (fun kv : Z * V => kv.1 ≠ k) d). lia.
    + rewrite decide_True by done. cbn. apply IH in H. lia.
Qed.

End DictFacts.

(** ** What no method changes *)

Lemma no_new_state_exec_all cs s : no_new_state s (exec_all cs s).
Proof.
  apply stable_exec_all; unfold no_new_state; cbn; try done.
  - intros s1 s2 s3 H12 H23 k Hk. auto.
  - intros k x s0 k'. rewrite dict_get_set. case_decide; subst; [|done].
    by rewrite fmap_is_Some.
  - intros k s0 k'. rewrite dict_get_del. case_decide; [|done].
    by intros [? ?].
Qed.

Lemma same_done_length_exec_all cs s : same_done_length s (exec_all cs s).
Proof.
  apply stable_exec_all; unfold same_done_length; cbn; try done.
  - intros s1 s2 s3 H12 H23. congruence.
  - intros k x s0. by rewrite length_insert.
Qed.

Lemma same_identity_exec_all cs s : same_identity s (exec_all cs s).
Proof.
  apply stable_exec_all; unfold same_identity; cbn; try done.
  intros s1 s2 s3 (?&?&?) (?&?&?). repeat split; congruence.
Qed.

Lemma dict_get_nil_all {V} (d : list (Z * V)) :
  (forall k, dict_get k d = None) -> d = [].
Proof.
  destruct d as [|[k v] d]; [done|]. intros H. specialize (H k).
  cbn in H. by rewrite decide_True in H.
Qed.

Lemma init_inv peers0 me0 out0 s :
  __init__ peers0 me0 out0 = inr s ->
  peers s = peers0 /\ me s = me0 /\ packet_id s = 0 /\ out s = out0 /\
  max_seq_seen s = 0 /\ done_seqs s = [] /\ values s = ∅ /\
  accept_state s = [] /\ propose_data s = ∅ /\ heap s = [] /\
  processes s = [].
Proof.
  unfold __init__. destruct (py_index peers0 me0); [|done].
  intros [= <-]. cbn. repeat split.
Qed.

(** ** C10: [status] on a peer built by [__init__] *)

(** C10.  No method changes the length of [done_seqs], which [__init__]
    leaves empty; so after any sequence of calls on a freshly constructed
    peer [done_seqs] is still empty, and [status(seq)], which starts by
    taking [min(self.done_seqs)] through [min()] and [do_mem_shrink()],
    raises [ValueError] for every [seq] instead of returning a
    [(Fate, value)] pair, and leaves the peer as it was. *)
Theorem C10_status_raises_on_constructed_peer
    peers0 me0 out0 s cs seq :
  __init__ peers0 me0 out0 = inr s ->
  (forall c s0, length (done_seqs (exec c s0)) = length (done_seqs s0)) /\
  done_seqs (exec_all cs s) = [] /\
  status seq (exec_all cs s) = Raise ValueError (exec_all cs s).
Proof.
  intros Hinit. apply init_inv in Hinit as (_&_&_&_&_&Hd&_).
  assert (Hnil : done_seqs (exec_all cs s) = []).
  { pose proof (same_done_length_exec_all cs s) as H.
    unfold same_done_length in H. rewrite Hd in H.
    by apply nil_length_inv. }
  split; [|split; [done|]].
  - intros c s0. apply (same_done_length_exec_all [c] s0).
  - unfold status, min, do_mem_shrink, bind, gets. by rewrite Hnil.
Qed.

Lemma C10_witness :
  status 7 (exec_all [CStart 7 "v"; CRecvDecidedRequest
                        (Packet.mk 40 1 "b" "" (DecidedRequest 7 1 0 "v"))]
              fresh3)
  = Raise ValueError
      (exec_all [CStart 7 "v"; CRecvDecidedRequest
                   (Packet.mk 40 1 "b" "" (DecidedRequest 7 1 0 "v"))]
         fresh3).
Proof.
  exact (proj2 (proj2 (C10_status_raises_on_constructed_peer
    ["a"; "b"; "c"] 0 (Some []) fresh3 _ 7 eq_refl))).
Defined.

(** ** C9: the table of acceptor states is never populated *)

(** C9, against the claim as stated.  The table is not only read:
    [do_mem_shrink] deletes from it (here the key 2, which is at or below
    the least watermark 3).  And [start] does not reach the read in
    [propose]: on a peer as [__init__] builds it, [start(7, "v")] returns. *)
Lemma C9_counterexample :
  ¬ accept_state_only_read /\ ¬ read_reached_from_start.
Proof.
  split.
  - intros H. specialize (H CDoMemShrink to_shrink). done.
  - intros H.
    destruct (H ["a"; "b"; "c"] 0 (Some []) fresh3 7 "v" eq_refl) as [s' Hs].
    done.
Qed.

(** C9, amended.  No method adds a key to [accept_state], which
    [__init__] leaves empty; so after any sequence of calls on a freshly
    constructed peer
    the table is still empty and each read of [accept_state[seq]] raises
    [KeyError]: the first statement of the body of [propose] (run when its
    generator is first resumed), [recv_prepare], [recv_accept], and
    [recv_prepare_reply] on a rejecting reply.  No default state is made. *)
Theorem C9_accept_state_never_populated peers0 me0 out0 s cs :
  __init__ peers0 me0 out0 = inr s ->
  let s' := exec_all cs s in
  (forall c s0 k, is_Some (dict_get k (accept_state (exec c s0))) ->
                  is_Some (dict_get k (accept_state s0))) /\
  accept_state s' = [] /\
  (forall seq v, next (propose seq v) s' = Raise KeyError s') /\
  (forall packet seq n,
     Packet.payload packet = PrepareRequest seq n ->
     exists s'', recv_prepare packet s' = Raise KeyError s'' /\
                 accept_state s'' = []) /\
  (forall packet seq n v,
     Packet.payload packet = AcceptRequest seq n v ->
     recv_accept packet s' = Raise KeyError s') /\
  (forall packet seq n v,
     Packet.payload packet = PrepareReply seq false n v ->
     recv_prepare_reply packet s' = Raise KeyError s').
Proof.
  intros Hinit s'. apply init_inv in Hinit as (_&_&_&_&_&_&_&Ha&_).
  assert (Hnil : accept_state s' = []).
  { apply dict_get_nil_all. intros k.
    pose proof (no_new_state_exec_all cs s k) as H. rewrite Ha in H.
    destruct (dict_get k (accept_state (exec_all cs s))) eqn:E; [|done].
    destruct H as [? H]; [by eexists|]. done. }
  split; [|split; [done|]].
  { intros c s0. apply (no_new_state_exec_all [c] s0). }
  repeat split.
  - intros seq v. unfold propose, next, get_state, bind, gets. by rewrite Hnil.
  - intros packet seq n Hp. unfold recv_prepare. rewrite Hp. cbn.
    unfold bind, gets, get_state, bind, gets. cbn.
    destruct (max_seq_seen s' <? seq); cbn; rewrite Hnil; cbn; eauto.
  - intros packet seq n v Hp. unfold recv_accept. rewrite Hp. cbn.
    unfold bind, gets, get_state, bind, gets. cbn. by rewrite Hnil.
  - intros packet seq n v Hp. unfold recv_prepare_reply. rewrite Hp. cbn.
    unfold get_propose_data, bind, gets, get_state, bind, gets. cbn.
    destruct (propose_data s' !! seq); cbn; [|done]. by rewrite Hnil.
Qed.

Lemma C9_witness :
  next (propose 7 "v") (exec_all [CStart 7 "v"] fresh3)
  = Raise KeyError (exec_all [CStart 7 "v"] fresh3).
Proof.
  exact (proj1 (proj2 (proj2 (C9_accept_state_never_populated
    ["a"; "b"; "c"] 0 (Some []) fresh3 [CStart 7 "v"] eq_refl))) 7 "v").
Defined.

(** ** C8: the value of [min()] *)

Lemma foldl_min_le (l : list Z) x : foldl Z.min x l <= x.
Proof.
  revert x. induction l as [|y l IH]; intros x; cbn; [lia|].
  specialize (IH (Z.min x y)). lia.
Qed.

Lemma foldl_min_lower (l : list Z) x y : y ∈ l -> foldl Z.min x l <= y.
Proof.
  revert x. induction l as [|z l IH]; intros x Hy; cbn.
  - by apply elem_of_nil in Hy.
  - apply elem_of_cons in Hy as [->|Hy]; [|by apply IH].
    pose proof (foldl_min_le l (Z.min x z)). lia.
Qed.

Lemma foldl_min_elem (l : list Z) x :
  foldl Z.min x l = x \/ foldl Z.min x l ∈ l.
Proof.
  revert x. induction l as [|z l IH]; intros x; cbn; [by left|].
  destruct (IH (Z.min x z)) as [H|H].
  - rewrite H. destruct (Z.min_spec x z) as [[_ ->]|[_ ->]];
      [by left|right; apply elem_of_cons; by left].
  - right. apply elem_of_cons. by right.
Qed.

(** [py_min] is the least element of the list. *)
Lemma py_min_spec (l : list Z) m :
  py_min l = Some m -> m ∈ l /\ forall x, x ∈ l -> m <= x.
Proof.
  destruct l as [|x l]; [done|]. cbn. intros [= <-]. split.
  - destruct (foldl_min_elem l x) as [->|H]; apply elem_of_cons; auto.
  - intros y [->|Hy]%elem_of_cons; [apply foldl_min_le|by apply foldl_min_lower].
Qed.

(** The loop of [do_mem_shrink] comes to its end only when it deleted
    nothing: the deletion of a key makes the next step of the iterator
    raise. *)
Lemma shrink_loop_returns used mins ks s s' :
  shrink_loop used mins ks s = Ok tt s' ->
  s' = s /\ Forall (fun k => mins < k) ks.
Proof.
  revert s. induction ks as [|k ks IH]; intros s; cbn [shrink_loop];
    unfold bind at 1, gets at 1; case_bool_decide as Hlen; try done.
  - by intros [= <-].
  - destruct (k <=? mins) eqn:Hk.
    + unfold get_state, bind, gets, modify, or_raise, ret, raise.
      destruct (dict_get k (accept_state s)) as [x|] eqn:Hget; [|done].
      assert (length (dict_del k (accept_state s)) < used)%nat as Hlt.
      { subst used. by apply dict_del_length. }
      cbn [values set_accept_state]. destruct (values s !! k); [|done].
      destruct ks; cbn [shrink_loop]; unfold bind at 1, gets at 1;
        cbn [accept_state set_values set_accept_state];
        rewrite bool_decide_true by lia; done.
    + unfold bind at 1, ret at 1. intros H. apply IH in H as [-> H].
      split; [done|]. constructor; [lia|done].
Qed.

Lemma shrink_loop_nothing_to_delete mins ks s :
  Forall (fun k => mins < k) ks ->
  shrink_loop (length (accept_state s)) mins ks s = Ok tt s.
Proof.
  induction 1 as [|k ks Hk _ IH]; cbn [shrink_loop];
    unfold bind at 1, gets at 1; rewrite bool_decide_false by naive_solver.
  - done.
  - replace (k <=? mins) with false by lia. unfold bind at 1, ret at 1. done.
Qed.

Lemma min_returns s m s' :
  min s = Ok m s' ->
  exists mins, py_min (done_seqs s) = Some mins /\ m = mins + 1 + 1 /\ s' = s.
Proof.
  unfold min, do_mem_shrink, bind at 1 2 3, gets at 1, or_raise.
  destruct (py_min (done_seqs s)) as [mins|]; [|done].
  unfold ret at 1, bind at 1 2, gets at 1.
  destruct (shrink_loop _ _ _ _) as [[] s1|] eqn:Hloop; [|done].
  apply shrink_loop_returns in Hloop as [-> _].
  unfold ret. intros [= <- <-]. eauto.
Qed.

(** C8 (the code departs from it).  Whenever [min()] returns, the peer is
    unchanged and the result is the least done watermark plus two:
    [do_mem_shrink] already returns [mins + 1] and [min] adds one more. *)
Theorem C8_min_returns_least_watermark_plus_two s m s' :
  min s = Ok m s' ->
  exists mins,
    mins ∈ done_seqs s /\ (forall x, x ∈ done_seqs s -> mins <= x) /\
    m = mins + 2 /\ s' = s.
Proof.
  intros (mins & Hmin & -> & ->)%min_returns.
  apply py_min_spec in Hmin as [? ?].
  exists mins. repeat split; auto. lia.
Qed.

Lemma C8_witness :
  exists mins,
    mins ∈ [3; 5; 4] /\ (forall x, x ∈ [3; 5; 4] -> mins <= x) /\
    5 = mins + 2 /\ watermarks354 = watermarks354.
Proof.
  exact (C8_min_returns_least_watermark_plus_two
           watermarks354 5 watermarks354 eq_refl).
Defined.

(** ** What the handlers compute *)

(** Unfold the monad and the primitives, then read fields through the
    setters. *)
Ltac mred :=
  cbv beta iota zeta delta
    [bind gets modify ret raise or_raise attr assert assert_out out_put
     get_state put_state get_propose_data deref update alloc new_packet
     dprint];
  cbn [peers me id packet_id out max_seq_seen done_seqs values accept_state
       propose_data heap processes set_packet_id set_out set_max_seq_seen
       set_done_seqs set_values set_accept_state set_propose_data set_heap
       set_processes final Attr.instance Attr.proposal Attr.ok Attr.value
       Attr.sender Attr.done_seq].

Lemma send_packet_to_eq payload peer s :
  send_packet_to payload peer s =
    if decide (peer = id s) then Ok tt s
    else
      let s1 := set_packet_id (packet_id s + 1) s in
      match out s with
      | Some q =>
          Ok tt (set_out
                   (Some (q ++ [Packet.mk 40 (packet_id s + 1) (id s) peer payload]))
                   s1)
      | None => Raise AssertionError s1
      end.
Proof.
  unfold send_packet_to. mred.
  destruct (decide (peer = id s)); [done|].
  destruct (out s) eqn:E; mred; rewrite ?E; done.
Qed.

Lemma recv_prepare_eq s packet seq n state :
  Packet.payload packet = PrepareRequest seq n ->
  dict_get seq (accept_state s) = Some state ->
  recv_prepare packet s =
    let s1 := if max_seq_seen s <? seq then set_max_seq_seen seq s else s in
    if np state <? n then
      send_packet_to (PrepareReply seq true (na state) (va state))
        (Packet.src packet)
        (set_accept_state
           (dict_set seq (mkState n (na state) (va state)) (accept_state s)) s1)
    else send_packet_to (PrepareReply seq false 0 "") (Packet.src packet) s1.
Proof.
  intros Hp Hs. unfold recv_prepare. rewrite Hp. cbn [Attr.instance Attr.proposal].
  mred. destruct (max_seq_seen s <? seq); mred;
    rewrite Hs; destruct (np state <? n); done.
Qed.

Lemma recv_accept_eq s packet seq n v state :
  Packet.payload packet = AcceptRequest seq n v ->
  dict_get seq (accept_state s) = Some state ->
  recv_accept packet s =
    if np state <=? n then
      send_packet_to (AcceptReply seq true) (Packet.src packet)
        (set_accept_state (dict_set seq (mkState n n v) (accept_state s)) s)
    else send_packet_to (AcceptReply seq false) (Packet.src packet) s.
Proof.
  intros Hp Hs. unfold recv_accept. rewrite Hp.
  cbn [Attr.instance Attr.proposal Attr.value].
  mred. rewrite Hs. destruct (np state <=? n); done.
Qed.

(** ** C5: the reply to a rejected Prepare *)

(** The half of C5 that the code keeps: a request above [np] is promised
    and answered with the pair the acceptor holds. *)
Lemma recv_prepare_promise s packet seq n state q :
  Packet.payload packet = PrepareRequest seq n ->
  dict_get seq (accept_state s) = Some state ->
  np state < n ->
  Packet.src packet ≠ id s ->
  out s = Some q ->
  exists s',
    recv_prepare packet s = Ok tt s' /\
    dict_get seq (accept_state s') = Some (mkState n (na state) (va state)) /\
    out s' = Some (q ++ [Packet.mk 40 (packet_id s + 1) (id s)
                           (Packet.src packet)
                           (PrepareReply seq true (na state) (va state))]).
Proof.
  intros Hp Hs Hn Hsrc Hout. rewrite (recv_prepare_eq _ _ _ _ _ Hp Hs).
  cbv zeta. replace (np state <? n) with true by lia.
  rewrite send_packet_to_eq.
  destruct (max_seq_seen s <? seq);
    cbn [id set_max_seq_seen set_accept_state out packet_id accept_state];
    rewrite decide_False, Hout by done; eexists;
    (split; [done|]); cbn; (split; [|done]); by erewrite dict_get_set_eq.
Qed.

(** C5 (the code departs from it).  A [PrepareRequest(seq, n)] from another
    peer with [n] not above the acceptor's [np] leaves the acceptor state
    as it was and is answered by [PrepareReply(seq, False, 0, "")]: the
    reply carries the constant 0, not the acceptor's [np]. *)
Theorem C5_reject_reply_carries_zero s packet seq n state q :
  Packet.payload packet = PrepareRequest seq n ->
  dict_get seq (accept_state s) = Some state ->
  n <= np state ->
  Packet.src packet ≠ id s ->
  out s = Some q ->
  exists s',
    recv_prepare packet s = Ok tt s' /\
    accept_state s' = accept_state s /\
    out s' = Some (q ++ [Packet.mk 40 (packet_id s + 1) (id s)
                           (Packet.src packet) (PrepareReply seq false 0 "")]).
Proof.
  intros Hp Hs Hn Hsrc Hout. rewrite (recv_prepare_eq _ _ _ _ _ Hp Hs).
  cbv zeta. replace (np state <? n) with false by lia.
  rewrite send_packet_to_eq.
  destruct (max_seq_seen s <? seq); cbn [id set_max_seq_seen out packet_id];
    rewrite decide_False, Hout by done; eexists; split; done.
Qed.

Lemma C5_witness :
  exists s',
    recv_prepare (Packet.mk 40 9 "b" "" (PrepareRequest 7 3)) promised5
      = Ok tt s' /\
    accept_state s' = [(7, mkState 5 2 "x")] /\
    out s' = Some [Packet.mk 40 1 "a" "b" (PrepareReply 7 false 0 "")].
Proof.
  apply (C5_reject_reply_carries_zero promised5
           (Packet.mk 40 9 "b" "" (PrepareRequest 7 3)) 7 3 (mkState 5 2 "x") []);
    [reflexivity|reflexivity|cbn; lia|discriminate|reflexivity].
Defined.

(** ** C4: what [start] does *)

(** C4 (the code departs from it).  [start(seq, v)] returns at once and
    raises [max_seq_seen] to at least [seq], and that is all: the call of
    [propose] inside it only builds a generator, which [start] drops
    without resuming, so nothing is put on [out], no round is recorded in
    [propose_data], no timer process is made and no packet id is used. *)
Theorem C4_start_sends_nothing s seq v :
  exists s',
    start seq v s = Ok tt s' /\
    seq <= max_seq_seen s' /\ max_seq_seen s <= max_seq_seen s' /\
    out s' = out s /\ propose_data s' = propose_data s /\
    heap s' = heap s /\ accept_state s' = accept_state s /\
    processes s' = processes s /\ packet_id s' = packet_id s.
Proof.
  unfold start, bind, gets, modify, ret.
  destruct (max_seq_seen s <? seq) eqn:E; eexists; (split; [done|]); cbn;
    repeat split; lia.
Qed.

Example C4_start_on_fresh_peer :
  start 7 "v" fresh3 = Ok tt (set_max_seq_seen 7 fresh3) /\
  out (set_max_seq_seen 7 fresh3) = Some [].
Proof. split; reflexivity. Qed.

(** ** C3: the dispatcher and the round token *)

Lemma put_eq s packet :
  put packet s =
    if bool_decide (Packet.dst packet = "") then
      match propose_data s !! Attr.instance (Packet.payload packet) with
      | None => Raise KeyError s
      | Some r =>
          match heap s !! r with
          | None => Raise RuntimeError s
          | Some temp =>
              if bool_decide
                   (Packet.packet_id packet ≠ ProposeInfo.packet_id temp)
              then Ok tt s
              else
                match Packet.payload packet with
                | PrepareRequest _ _ => recv_prepare packet s
                | AcceptRequest _ _ _ => recv_accept packet s
                | PrepareReply _ _ _ _ => recv_prepare_reply packet s
                | AcceptReply _ _ => recv_accept_reply packet s
                | DecidedRequest _ _ _ _ => recv_decided_request packet s
                | Instance _ | DecidedReply _ => Ok tt s
                end
          end
      end
    else Raise AssertionError s.
Proof.
  unfold put, py_eq_str_int. mred. rewrite orb_false_r.
  destruct (bool_decide (Packet.dst packet = "")); [|done].
  destruct (propose_data s !! _); [|done].
  destruct (heap s !! _); [|done].
  destruct (bool_decide (_ ≠ _)); [done|].
  by destruct (Packet.payload packet).
Qed.

(** A packet that is addressed to a peer never gets past the first
    assertion of [put]: [dst] is a string and [me] an integer. *)
Lemma put_addressed s packet :
  Packet.dst packet ≠ "" -> put packet s = Raise AssertionError s.
Proof. intros H. by rewrite put_eq, bool_decide_false. Qed.

(** Without proposer data for the instance, [put] raises before it looks at
    the type of the payload. *)
Lemma put_without_round s packet :
  Packet.dst packet = "" ->
  propose_data s !! Attr.instance (Packet.payload packet) = None ->
  put packet s = Raise KeyError s.
Proof. intros Hd Hp. by rewrite put_eq, bool_decide_true, Hp. Qed.

(** C3 (the code departs from it).  [put] compares the packet id with the
    token of the round before it looks at the type of the payload: on a
    mismatch it returns with the peer unchanged, whatever the payload is,
    a request as much as a reply. *)
Theorem C3_put_discards_any_payload_on_token_mismatch s packet r temp :
  Packet.dst packet = "" ->
  propose_data s !! Attr.instance (Packet.payload packet) = Some r ->
  heap s !! r = Some temp ->
  Packet.packet_id packet ≠ ProposeInfo.packet_id temp ->
  put packet s = Ok tt s.
Proof.
  intros Hd Hp Hh Hne.
  by rewrite put_eq, bool_decide_true, Hp, Hh, bool_decide_true.
Qed.

Lemma C3_witness :
  put (Packet.mk 40 4 "b" "" (PrepareRequest 7 2)) round1 = Ok tt round1.
Proof.
  apply (C3_put_discards_any_payload_on_token_mismatch round1
           (Packet.mk 40 4 "b" "" (PrepareRequest 7 2)) 0%nat (ProposeInfo.new 1));
    [reflexivity|reflexivity|reflexivity|cbn; lia].
Defined.

(** The handler that [put] did not call would have promised 2. *)
Example C3_request_handler_would_promise :
  accept_state (final (recv_prepare
                         (Packet.mk 40 4 "b" "" (PrepareRequest 7 2)) round1))
  = [(7, mkState 2 0 "")].
Proof. reflexivity. Qed.

(** ** C2: the value of the Accept phase *)

(** The handlers of a peer's own broadcast never write to [out]: the reply
    is addressed to the peer itself and [send_packet_to] returns at once. *)
Lemma recv_accept_own_out s packet :
  Packet.src packet = id s -> out (final (recv_accept packet s)) = out s.
Proof.
  intros Hsrc. unfold recv_accept. mred.
  destruct (Attr.proposal _); [|done]. destruct (Attr.value _); [|done].
  destruct (dict_get _ _); [|done].
  destruct (_ <=? _); mred; rewrite send_packet_to_eq; mred;
    by rewrite decide_True.
Qed.

Lemma broadcast_accept_request_out s seq n v q r :
  out s = Some q ->
  propose_data s !! seq = Some r ->
  out (final (broadcast_accept_request seq n v s)) =
    Some (q ++ [Packet.mk 40 (packet_id s + 1) (id s) "" (AcceptRequest seq n v)]).
Proof.
  intros Hout Hp. unfold broadcast_accept_request. mred.
  rewrite Hout, Hp. mred. rewrite Hout. mred.
  match goal with
  | |- context [recv_accept ?p ?s1] =>
      pose proof (recv_accept_own_out s1 p eq_refl) as H;
      destruct (recv_accept p s1)
  end; exact H.
Qed.

(** C2 (the code departs from it).  When the generator of [propose] is
    resumed after its first [yield] with the round prepared, the
    [AcceptRequest] it puts on [out] carries the value [v] that was passed
    to [propose], whatever pair [(maxna, v1)] the Prepare replies left in
    the round's data: [v1] is written by [recv_prepare_reply] and never
    read. *)
Theorem C2_accept_phase_broadcasts_requested_value s seq v n temp i q r :
  heap s !! temp = Some i ->
  ProposeInfo.prepared i = true ->
  out s = Some q ->
  propose_data s !! seq = Some r ->
  out (final (next (AtPrepared seq v n temp) s)) =
    Some (q ++ [Packet.mk 40 (packet_id s + 1) (id s) "" (AcceptRequest seq n v)]).
Proof.
  intros Hh Hprep Hout Hp. unfold next. mred. rewrite Hh, Hprep. mred.
  pose proof (broadcast_accept_request_out s seq n v q r Hout Hp) as H.
  destruct (broadcast_accept_request seq n v s); exact H.
Qed.

(** The generator in the witness below is the one the first resumption
    returned. *)
Example C2_generator_after_first_resumption :
  match next (propose 12 "new") before_round with
  | Ok g _ => g = AtPrepared 12 "new" 6 0
  | Raise _ _ => False
  end.
Proof. reflexivity. Qed.

Lemma C2_witness :
  heap (exec_all prepare_phase before_round) !! 0%nat
    = Some (ProposeInfo.mk 1 5 "x" 2 true 0 false) /\
  out (final (next (AtPrepared 12 "new" 6 0)
                (exec_all prepare_phase before_round))) =
    Some [Packet.mk 40 1 "a" "" (PrepareRequest 12 6);
          Packet.mk 40 2 "a" "" (AcceptRequest 12 6 "new")].
Proof.
  split; [reflexivity|].
  apply (C2_accept_phase_broadcasts_requested_value
           (exec_all prepare_phase before_round) 12 "new" 6 0%nat
           (ProposeInfo.mk 1 5 "x" 2 true 0 false)
           [Packet.mk 40 1 "a" "" (PrepareRequest 12 6)] 0%nat);
    reflexivity.
Defined.

(** ** C6: one entry of the acceptor table under the acceptor handlers *)

Lemma send_packet_to_accept_state payload peer s :
  accept_state (final (send_packet_to payload peer s)) = accept_state s.
Proof.
  rewrite send_packet_to_eq. destruct (decide _); [done|].
  cbv zeta. by destruct (out s).
Qed.

Lemma recv_prepare_step packet s :
  acceptor_step (CRecvPrepare packet) (accept_state s)
    (accept_state (final (recv_prepare packet s))).
Proof.
  unfold recv_prepare. mred.
  destruct (Attr.proposal _) as [n|]; [|constructor].
  destruct (max_seq_seen s <? _); mred;
    (destruct (dict_get _ (accept_state s)) as [x|] eqn:Hx; [|constructor]);
    (destruct (np x <? n) eqn:Hn; mred; rewrite send_packet_to_accept_state;
     mred; [apply step_promise; [done|lia]|constructor]).
Qed.

Lemma recv_accept_step packet s :
  acceptor_step (CRecvAccept packet) (accept_state s)
    (accept_state (final (recv_accept packet s))).
Proof.
  unfold recv_accept. mred.
  destruct (Attr.proposal _) as [n|] eqn:Hn; [|constructor].
  destruct (Attr.value _) as [v|] eqn:Hv; [|constructor].
  destruct (dict_get _ (accept_state s)) as [x|] eqn:Hx; [|constructor].
  destruct (np x <=? n) eqn:Hle; mred; rewrite send_packet_to_accept_state.
  - mred. eapply step_accept; eauto. lia.
  - constructor.
Qed.

Lemma write_write r i j s : write r i (write r j s) = write r i s.
Proof. unfold write. cbn. by rewrite list_insert_insert_eq. Qed.

Lemma heap_write_eq r i j s :
  heap s !! r = Some j -> heap (write r i s) !! r = Some i.
Proof.
  intros H. cbn. apply list_lookup_insert_eq. by eapply lookup_lt_Some.
Qed.

Lemma update_eq r f s i :
  heap s !! r = Some i -> update r f s = Ok tt (write r (f i) s).
Proof. intros H. mred. by rewrite H. Qed.

Lemma deref_eq r s i : heap s !! r = Some i -> deref r s = Ok i s.
Proof. intros H. mred. by rewrite H. Qed.

(** Reading back an object that was just written. *)
Ltac heap_step :=
  mred;
  repeat match goal with
    | H : ?l !! ?r = Some _ |- context [?l !! ?r] => rewrite H
    end;
  rewrite ?list_lookup_insert_eq
    by (rewrite ?length_insert; eapply lookup_lt_Some; eassumption);
  mred; rewrite ?list_insert_insert_eq.

Lemma recv_prepare_reply_affirmative s packet seq n v temp i :
  Packet.payload packet = PrepareReply seq true n v ->
  propose_data s !! seq = Some temp ->
  heap s !! temp = Some i ->
  recv_prepare_reply packet s =
    Ok tt (write temp (tally_prepare (length (peers s)) n v i) s).
Proof.
  intros Hp Hd Hi. unfold recv_prepare_reply, write, tally_prepare.
  rewrite Hp. cbn [Attr.instance Attr.ok Attr.proposal Attr.value].
  mred. rewrite Hd. mred. rewrite Hi.
  destruct (ProposeInfo.maxna i <? n); repeat heap_step;
    cbn [ProposeInfo.packet_id ProposeInfo.maxna ProposeInfo.v1
         ProposeInfo.prepare_count ProposeInfo.prepared
         ProposeInfo.accept_count ProposeInfo.accepted];
    destruct (_ <? _); repeat heap_step; by destruct i.
Qed.

Lemma recv_accept_reply_affirmative s packet temp i :
  Attr.ok (Packet.payload packet) = Some true ->
  propose_data s !! Attr.instance (Packet.payload packet) = Some temp ->
  heap s !! temp = Some i ->
  recv_accept_reply packet s =
    Ok tt (write temp (tally_accept (length (peers s)) i) s).
Proof.
  intros Hp Hd Hi. unfold recv_accept_reply, write, tally_accept.
  rewrite Hp. mred. rewrite Hd. mred. rewrite Hi. repeat heap_step.
  cbn [ProposeInfo.packet_id ProposeInfo.maxna ProposeInfo.v1
       ProposeInfo.prepare_count ProposeInfo.prepared
       ProposeInfo.accept_count ProposeInfo.accepted].
  destruct (_ <? _); repeat heap_step; by destruct i.
Qed.

Lemma recv_prepare_reply_step packet s :
  acceptor_step (CRecvPrepareReply packet) (accept_state s)
    (accept_state (final (recv_prepare_reply packet s))).
Proof.
  destruct (Packet.payload packet) as
    [seq|seq n|seq [] n v|seq n v|seq []|seq sd d v|seq] eqn:Hp.
  3: { destruct (propose_data s !! seq) as [temp|] eqn:Hd.
       - destruct (heap s !! temp) as [i|] eqn:Hi.
         + erewrite recv_prepare_reply_affirmative by done. constructor.
         + unfold recv_prepare_reply. rewrite Hp. mred. rewrite Hd. mred.
           rewrite Hi. constructor.
       - unfold recv_prepare_reply. rewrite Hp. mred. rewrite Hd. constructor. }
  all: unfold recv_prepare_reply; rewrite Hp; mred;
    destruct (propose_data s !! seq) as [temp|];
    try solve [constructor
              |destruct (heap s !! temp); constructor
              |destruct (dict_get seq (accept_state s)); constructor].
  destruct (dict_get seq (accept_state s)) as [x|] eqn:Hx; [|constructor].
  destruct (np x <? n) eqn:Hn; mred; [|constructor].
  apply step_promise; [done|lia].
Qed.

Lemma acceptor_call_step c s :
  acceptor_call c -> acceptor_step c (accept_state s) (accept_state (exec c s)).
Proof.
  destruct c; try done; intros _; cbn [exec].
  - apply recv_prepare_step.
  - apply recv_accept_step.
  - apply recv_prepare_reply_step.
Qed.

Lemma acceptor_step_entry c d d' k x :
  acceptor_step c d d' ->
  dict_get k d = Some x ->
  exists x',
    dict_get k d' = Some x' /\
    np x <= np x' /\
    (na x <= np x -> na x' <= np x' /\ na x <= na x') /\
    (va x' ≠ va x ->
     exists packet n v,
       c = CRecvAccept packet /\
       Attr.instance (Packet.payload packet) = k /\
       Attr.proposal (Packet.payload packet) = Some n /\
       Attr.value (Packet.payload packet) = Some v /\
       np x <= n /\ x' = mkState n n v).
Proof.
  intros Hstep Hk. destruct Hstep as [|k0 x0 n Hk0 Hn|packet k0 x0 n v -> Hi Hp Hv Hk0 Hn].
  - exists x. repeat split; try done; lia.
  - rewrite dict_get_set. case_decide as Heq.
    + subst k. rewrite Hk0 in Hk. injection Hk as ->. rewrite Hk0. cbn.
      eexists. split; [done|]. cbn. repeat split; try done; lia.
    + exists x. repeat split; try done; lia.
  - rewrite dict_get_set. case_decide as Heq.
    + subst k. rewrite Hk0 in Hk. injection Hk as ->. rewrite Hk0. cbn.
      eexists. split; [done|]. cbn. repeat split; try lia.
      intros _. by exists packet, n, v.
    + exists x. repeat split; try done; lia.
Qed.

(** C6, against the claim as stated: an [AcceptRequest(7, 5, "y")] reaches
    the acceptor that holds [(np, na, va) = (5, 5, "x")]; 5 is not below
    [np], so [va] becomes ["y"], under a number equal to [na]. *)
Lemma C6_counterexample : ¬ va_changes_only_above_na.
Proof.
  intros H.
  destruct (H (CRecvAccept (Packet.mk 40 3 "b" "" (AcceptRequest 7 5 "y")))
              accepted5 7 (mkState 5 5 "x") (mkState 5 5 "y"))
    as (packet & n & Hc & Hn & Hlt); try done.
  injection Hc as <-. cbn in Hn. injection Hn as <-. cbn in Hlt. lia.
Qed.

(** C6, amended.  Over any sequence of calls of [recv_prepare],
    [recv_accept] and [recv_prepare_reply], an entry of the acceptor table
    stays in the table, its [np] never decreases, [na <= np] is kept and
    [na] never decreases, and its [va] differs at the end only if the
    sequence holds a [recv_accept] of an Accept for that instance whose
    number is at least the [np] the entry started with (hence at least its
    [na]; the number may equal [na]). *)
Theorem C6_acceptor_entry cs s k x :
  Forall acceptor_call cs ->
  dict_get k (accept_state s) = Some x ->
  na x <= np x ->
  exists x',
    dict_get k (accept_state (exec_all cs s)) = Some x' /\
    np x <= np x' /\ na x' <= np x' /\ na x <= na x' /\
    (va x' ≠ va x ->
     exists packet n v,
       CRecvAccept packet ∈ cs /\
       Attr.instance (Packet.payload packet) = k /\
       Attr.proposal (Packet.payload packet) = Some n /\
       Attr.value (Packet.payload packet) = Some v /\
       np x <= n /\ na x <= n).
Proof.
  intros Hcs. revert s x.
  induction Hcs as [|c cs Hc _ IH]; intros s x Hk Hinv; cbn [exec_all foldl].
  - exists x. repeat split; try done; lia.
  - destruct (acceptor_step_entry _ _ _ k x (acceptor_call_step c s Hc) Hk)
      as (x1 & Hk1 & Hnp1 & Hinv1 & Hva1).
    destruct (Hinv1 Hinv) as [Hinv1' Hna1].
    destruct (IH (exec c s) x1 Hk1 Hinv1') as (x' & Hk' & Hnp' & Hinv' & Hna' & Hva').
    exists x'. split; [exact Hk'|]. repeat split; try lia.
    intros Hne. destruct (decide (va x1 = va x)) as [Heq|Hne1].
    + destruct Hva' as (packet & n & v & Hin & ? & ? & ? & ? & ?);
        [congruence|].
      exists packet, n, v. repeat split; try done; try lia.
      apply elem_of_cons. by right.
    + destruct (Hva1 Hne1) as (packet & n & v & -> & ? & ? & ? & ? & ?).
      exists packet, n, v. repeat split; try done; try lia.
      apply elem_of_cons. by left.
Qed.

Lemma C6_witness :
  exists x',
    dict_get 7 (accept_state
      (exec_all [CRecvPrepare (Packet.mk 40 2 "b" "" (PrepareRequest 7 6));
                 CRecvAccept (Packet.mk 40 3 "b" "" (AcceptRequest 7 6 "y"))]
         accepted5)) = Some x' /\
    5 <= np x' /\ na x' <= np x' /\ 5 <= na x' /\
    (va x' ≠ "x" ->
     exists packet n v,
       CRecvAccept packet ∈
         [CRecvPrepare (Packet.mk 40 2 "b" "" (PrepareRequest 7 6));
          CRecvAccept (Packet.mk 40 3 "b" "" (AcceptRequest 7 6 "y"))] /\
       Attr.instance (Packet.payload packet) = 7 /\
       Attr.proposal (Packet.payload packet) = Some n /\
       Attr.value (Packet.payload packet) = Some v /\
       5 <= n /\ 5 <= n).
Proof.
  apply (C6_acceptor_entry
    [CRecvPrepare (Packet.mk 40 2 "b" "" (PrepareRequest 7 6));
     CRecvAccept (Packet.mk 40 3 "b" "" (AcceptRequest 7 6 "y"))]
    accepted5 7 (mkState 5 5 "x")).
  - repeat constructor.
  - reflexivity.
  - cbn. lia.
Defined.

(** ** C7: how a round comes to be prepared and accepted *)

Ltac same_object_side :=
  unfold same_object; cbn; intros;
  first [ done | by eauto | by apply lookup_app_l_Some ].

Lemma same_object_trans r s1 s2 s3 :
  same_object r s1 s2 -> same_object r s2 s3 -> same_object r s1 s3.
Proof. unfold same_object. eauto. Qed.

Lemma same_object_write r r' j s :
  r ≠ r' -> same_object r s (write r' j s).
Proof. intros Hne i Hi. cbn. by rewrite list_lookup_insert_ne. Qed.

Lemma same_object_recv_prepare r packet s :
  same_object r s (final (recv_prepare packet s)).
Proof.
  apply preserves_recv_prepare; same_object_side.
Qed.

Lemma same_object_recv_accept r packet s :
  same_object r s (final (recv_accept packet s)).
Proof.
  apply preserves_recv_accept; same_object_side.
Qed.

Lemma same_object_recv_decided_request r packet s :
  same_object r s (final (recv_decided_request packet s)).
Proof.
  apply preserves_recv_decided_request; same_object_side.
Qed.

(** The round's data after a call of [recv_prepare_reply]. *)
Lemma recv_prepare_reply_round r packet s i :
  heap s !! r = Some i ->
  heap (final (recv_prepare_reply packet s)) !! r =
    Some (if prepare_reply_for r packet s then
            match Packet.payload packet with
            | PrepareReply _ _ n v => tally_prepare (length (peers s)) n v i
            | _ => i
            end
          else i).
Proof.
  intros Hi. unfold prepare_reply_for.
  destruct (Packet.payload packet) as
    [seq|seq n|seq [] n v|seq n v|seq []|seq sd d v|seq] eqn:Hp.
  3: { destruct (propose_data s !! seq) as [r'|] eqn:Hd.
       - destruct (heap s !! r') as [j|] eqn:Hj.
         + erewrite recv_prepare_reply_affirmative by done. cbn [final].
           case_bool_decide as Hr.
           * injection Hr as ->. rewrite Hi in Hj. injection Hj as ->.
             by eapply heap_write_eq.
           * apply same_object_write; [congruence|done].
         + rewrite bool_decide_false by congruence.
           unfold recv_prepare_reply. rewrite Hp. mred. rewrite Hd. mred.
           by rewrite Hj.
       - rewrite bool_decide_false by congruence.
         unfold recv_prepare_reply. rewrite Hp. mred. by rewrite Hd. }
  all: unfold recv_prepare_reply; rewrite Hp; mred;
    destruct (propose_data s !! seq) as [temp|];
    try solve [done
              |by destruct (heap s !! temp)
              |by destruct (dict_get seq (accept_state s))].
  destruct (dict_get seq (accept_state s)) as [x|]; [|done].
  by destruct (np x <? n).
Qed.

(** The round's data after a call of [recv_accept_reply]. *)
Lemma recv_accept_reply_round r packet s i :
  heap s !! r = Some i ->
  heap (final (recv_accept_reply packet s)) !! r =
    Some (if accept_reply_for r packet s
          then tally_accept (length (peers s)) i else i).
Proof.
  intros Hi. unfold accept_reply_for.
  destruct (Attr.ok (Packet.payload packet)) as [[]|] eqn:Hok.
  - destruct (propose_data s !! _) as [r'|] eqn:Hd.
    + destruct (heap s !! r') as [j|] eqn:Hj.
      * erewrite recv_accept_reply_affirmative by done. cbn [final].
        case_bool_decide as Hr.
        -- injection Hr as ->. rewrite Hi in Hj. injection Hj as ->.
           by eapply heap_write_eq.
        -- apply same_object_write; [congruence|done].
      * rewrite bool_decide_false by congruence.
        unfold recv_accept_reply. mred. rewrite Hd, Hok. mred.
        by rewrite Hj.
    + rewrite bool_decide_false by congruence.
      unfold recv_accept_reply. mred. by rewrite Hd.
  - unfold recv_accept_reply. mred.
    destruct (propose_data s !! _); [|done]. by rewrite Hok.
  - unfold recv_accept_reply. mred.
    destruct (propose_data s !! _); [|done]. by rewrite Hok.
Qed.

(** The round's data after the timeout closure ran: as it was, or reset. *)
Lemma propose_timeout_round r seq v s i :
  heap s !! r = Some i ->
  heap (final (propose_timeout seq v s)) !! r = Some i \/
  heap (final (propose_timeout seq v s)) !! r = Some (ProposeInfo.reset i).
Proof.
  intros Hi. unfold propose_timeout, propose. mred.
  destruct (propose_data s !! seq) as [temp|]; [|by left]. mred.
  destruct (heap s !! temp) as [j|] eqn:Hj; [|by left].
  destruct (negb _); [|by left]. mred. rewrite Hj. mred.
  destruct (decide (temp = r)) as [->|Hne].
  - right. rewrite Hi in Hj. injection Hj as ->.
    apply list_lookup_insert_eq. by eapply lookup_lt_Some.
  - left. by rewrite list_lookup_insert_ne.
Qed.

(** What [put] does to a round, by the payload it dispatches on. *)
Lemma put_round r packet s i :
  heap s !! r = Some i ->
  heap (final (put packet s)) !! r =
    Some (match tallies_prepare r (CPut packet) s,
                tallies_accept r (CPut packet) s with
          | Some _, _ =>
              match Packet.payload packet with
              | PrepareReply _ _ n v => tally_prepare (length (peers s)) n v i
              | _ => i
              end
          | None, Some _ => tally_accept (length (peers s)) i
          | None, None => i
          end).
Proof.
  intros Hi. rewrite put_eq. unfold tallies_prepare, tallies_accept, passes_put.
  destruct (bool_decide (Packet.dst packet = "")); cbn [andb final];
    [|by destruct (Packet.payload packet)].
  destruct (propose_data s !! _) as [r'|] eqn:Hd; cbn [andb final];
    [|by destruct (Packet.payload packet)].
  destruct (heap s !! r') as [j|] eqn:Hj; cbn [andb final];
    [|by destruct (Packet.payload packet)].
  destruct (decide (Packet.packet_id packet = ProposeInfo.packet_id j)) as [Hid|Hid].
  2: { rewrite bool_decide_true, bool_decide_false by done. cbn [andb final].
       by destruct (Packet.payload packet). }
  rewrite bool_decide_false, bool_decide_true by naive_solver. cbn [andb].
  destruct (Packet.payload packet) as
    [seq|seq n|seq b n v|seq n v|seq b|seq sd d v|seq] eqn:Hp.
  - unfold prepare_reply_for. by rewrite Hp.
  - unfold prepare_reply_for. rewrite Hp. by apply same_object_recv_prepare.
  - rewrite (recv_prepare_reply_round r packet s i Hi), Hp.
    by destruct (prepare_reply_for r packet s).
  - unfold prepare_reply_for. rewrite Hp. by apply same_object_recv_accept.
  - unfold prepare_reply_for at 1. rewrite Hp.
    rewrite (recv_accept_reply_round r packet s i Hi).
    by destruct (accept_reply_for r packet s).
  - unfold prepare_reply_for. rewrite Hp.
    by apply same_object_recv_decided_request.
  - unfold prepare_reply_for. by rewrite Hp.
Qed.

Ltac frame := first [ eassumption | same_object_side ].

Lemma exec_round r c s i :
  heap s !! r = Some i ->
  exists i',
    heap (exec c s) !! r = Some i' /\
    round_step (length (peers s)) (tallies_prepare r c s)
      (tallies_accept r c s) i i'.
Proof.
  intros Hi.
  destruct c; cbn [exec tallies_prepare tallies_accept];
    try (exists i; split; [|by left];
         first [ exact Hi
               | eapply (preserves_start (same_object r)); frame
               | eapply (preserves_next (same_object r)); frame
               | eapply (preserves_do_mem_shrink (same_object r)); frame
               | eapply (preserves_min (same_object r)); frame
               | eapply (preserves_status (same_object r)); frame
               | eapply (preserves_is_decided (same_object r)); frame
               | eapply (preserves_new_packet (same_object r)); frame
               | eapply (preserves_broadcast_prepare_request (same_object r)); frame
               | eapply (preserves_broadcast_accept_request (same_object r)); frame
               | eapply (preserves_broadcast_decide_request (same_object r)); frame
               | eapply (preserves_send_packet_to (same_object r)); frame
               | eapply (preserves_recv_prepare (same_object r)); frame
               | eapply (preserves_recv_accept (same_object r)); frame
               | eapply (preserves_recv_decided_request (same_object r)); frame ]).
  - (* propose_timeout *)
    destruct (propose_timeout_round r seq v s i Hi) as [H|H];
      eexists; (split; [exact H|]); [by left|by right].
  - (* recv_prepare_reply *)
    eexists. split; [by apply recv_prepare_reply_round|].
    unfold round_step. destruct (prepare_reply_for r packet s) eqn:E; [|by left].
    unfold prepare_reply_for in E.
    destruct (Packet.payload packet); try done. eauto.
  - (* recv_accept_reply *)
    eexists. split; [by apply recv_accept_reply_round|].
    unfold round_step. by destruct (accept_reply_for r packet s); [|left].
  - (* put *)
    eexists. split; [by apply put_round|].
    unfold round_step, tallies_prepare, tallies_accept.
    destruct (passes_put packet s && prepare_reply_for r packet s) eqn:E.
    + apply andb_true_iff in E as [_ E]. unfold prepare_reply_for in E.
      destruct (Packet.payload packet); try done. eauto.
    + destruct (Packet.payload packet); try by left.
      destruct (passes_put _ _ && accept_reply_for _ _ _); [done|by left].
Qed.

Lemma round_step_inv len tp ta kp ka i i' :
  round_step len tp ta i i' ->
  tally_inv len kp ka i ->
  tally_inv len (kp + length (option_list tp)) (ka + length (option_list ta)) i'.
Proof.
  unfold round_step, tally_inv. intros Hstep (Hp & Ha & Hfp & Hfa).
  destruct tp as [p|]; [|destruct ta as [a|]]; cbn [option_list length].
  - destruct Hstep as (n & v & ->). unfold tally_prepare. cbn.
    split; [lia|]. split; [lia|]. split; [|done].
    destruct (Z.of_nat len <? _) eqn:E; [lia|]. intros H. apply Hfp in H. lia.
  - subst i'. unfold tally_accept. cbn.
    split; [lia|]. split; [lia|]. split; [done|].
    destruct (Z.of_nat len <? _) eqn:E; [lia|]. intros H. apply Hfa in H. lia.
  - destruct Hstep as [->| ->]; cbn;
      (split; [lia|]); (split; [lia|]); split; done.
Qed.

Lemma exec_all_round r cs s i kp ka :
  heap s !! r = Some i ->
  tally_inv (length (peers s)) kp ka i ->
  exists i',
    heap (exec_all cs s) !! r = Some i' /\
    tally_inv (length (peers s))
      (kp + length (prepare_tally r cs s)) (ka + length (accept_tally r cs s)) i'.
Proof.
  revert s i kp ka.
  induction cs as [|c cs IH]; intros s i kp ka Hi Hinv;
    cbn [exec_all foldl prepare_tally accept_tally].
  - exists i. split; [done|]. cbn. by rewrite !Nat.add_0_r.
  - destruct (exec_round r c s i Hi) as (i1 & Hi1 & Hstep).
    pose proof (round_step_inv _ _ _ kp ka _ _ Hstep Hinv) as Hinv1.
    destruct (same_identity_exec_all [c] s) as (Hpeers & _). cbn in Hpeers.
    rewrite <- Hpeers in Hinv1.
    destruct (IH _ _ _ _ Hi1 Hinv1) as (i' & Hi' & Hinv').
    exists i'. split; [exact Hi'|].
    rewrite Hpeers in Hinv'. by rewrite !length_app, !Nat.add_assoc.
Qed.

Lemma prepare_tally_affirmative r cs s :
  Forall (fun p => Attr.ok (Packet.payload p) = Some true) (prepare_tally r cs s).
Proof.
  revert s. induction cs as [|c cs IH]; intros s; cbn [prepare_tally]; [done|].
  apply Forall_app. split; [|apply IH].
  destruct c; cbn; try done.
  - unfold prepare_reply_for.
    destruct (Packet.payload packet) as [| |? [] ? ?| | | |] eqn:E; try done.
    case_bool_decide; [|done]. repeat constructor. by rewrite E.
  - unfold prepare_reply_for.
    destruct (Packet.payload packet) as [| |? [] ? ?| | | |] eqn:E;
      rewrite ?andb_false_r; try done.
    destruct (_ && _); [|done]. repeat constructor. by rewrite E.
Qed.

Lemma accept_tally_affirmative r cs s :
  Forall (fun p => Attr.ok (Packet.payload p) = Some true) (accept_tally r cs s).
Proof.
  revert s. induction cs as [|c cs IH]; intros s; cbn [accept_tally]; [done|].
  apply Forall_app. split; [|apply IH].
  destruct c; cbn; try done.
  - unfold accept_reply_for.
    destruct (Attr.ok (Packet.payload packet)) as [[]|] eqn:E; try done.
    case_bool_decide; [|done]. by repeat constructor.
  - unfold accept_reply_for.
    destruct (Packet.payload packet) as [| | | |? []| |] eqn:E;
      rewrite ?andb_false_r; try done.
    cbn. destruct (_ && _); [|done]. repeat constructor. by rewrite E.
Qed.

Lemma quorum_floor (len k : Z) : len < 2 * k -> len / 2 + 1 <= k.
Proof.
  intros H. assert (len / 2 < k); [|lia].
  apply Z.div_lt_upper_bound; lia.
Qed.

(** C7, against the claim as stated: among three peers, two affirmative
    replies of the one peer b set [prepared]; the handler counts replies
    and does not look at who sent them. *)
Lemma C7_counterexample : ¬ prepared_by_distinct_repliers.
Proof.
  intros H.
  specialize (H twice_from_b round1 0%nat (ProposeInfo.new 1)
                (ProposeInfo.mk 1 0 "" 2 true 0 false)
                eq_refl (conj eq_refl (conj eq_refl (conj eq_refl eq_refl)))
                eq_refl eq_refl).
  vm_compute in H. by apply H.
Qed.

(** C7, amended.  Along any sequence of calls on the peer, starting with
    the data of round [r] as [broadcast_prepare_request] makes it, the
    flag [prepared] of the round is set only when the affirmative Prepare
    replies tallied into the round number at least ⌊peers/2⌋ + 1, and the
    flag [accepted] only when the affirmative Accept replies tallied into
    it do.  The replies are counted with repetition. *)
Theorem C7_quorum_of_tallied_replies cs s r i :
  heap s !! r = Some i ->
  fresh_round i ->
  exists i',
    heap (exec_all cs s) !! r = Some i' /\
    (ProposeInfo.prepared i' = true ->
     Z.of_nat (length (peers s)) / 2 + 1 <=
       Z.of_nat (length (prepare_tally r cs s))) /\
    (ProposeInfo.accepted i' = true ->
     Z.of_nat (length (peers s)) / 2 + 1 <=
       Z.of_nat (length (accept_tally r cs s))) /\
    Forall (fun p => Attr.ok (Packet.payload p) = Some true)
      (prepare_tally r cs s ++ accept_tally r cs s).
Proof.
  intros Hi (Hpc & Hp & Hac & Ha).
  destruct (exec_all_round r cs s i 0 0 Hi) as (i' & Hi' & Hinv).
  { unfold tally_inv. rewrite Hpc, Hp, Hac, Ha. repeat split; done. }
  destruct Hinv as ((_ & Hkp) & (_ & Hka) & Hfp & Hfa). cbn in Hkp, Hka.
  exists i'. split; [exact Hi'|]. repeat split.
  - intros H. apply Hfp in H. apply quorum_floor. lia.
  - intros H. apply Hfa in H. apply quorum_floor. lia.
  - apply Forall_app. split;
      [apply prepare_tally_affirmative|apply accept_tally_affirmative].
Qed.

Lemma C7_witness :
  exists i',
    heap (exec_all twice_from_b round1) !! 0%nat = Some i' /\
    (ProposeInfo.prepared i' = true ->
     Z.of_nat (length (peers round1)) / 2 + 1 <=
       Z.of_nat (length (prepare_tally 0 twice_from_b round1))) /\
    (ProposeInfo.accepted i' = true ->
     Z.of_nat (length (peers round1)) / 2 + 1 <=
       Z.of_nat (length (accept_tally 0 twice_from_b round1))) /\
    Forall (fun p => Attr.ok (Packet.payload p) = Some true)
      (prepare_tally 0 twice_from_b round1 ++ accept_tally 0 twice_from_b round1).
Proof.
  apply (C7_quorum_of_tallied_replies twice_from_b round1 0%nat
           (ProposeInfo.new 1)).
  - reflexivity.
  - repeat split.
Defined.

(** ** References always point into the store *)

Lemma wf_keeps_refl s : wf_keeps s s.
Proof. by unfold wf_keeps. Qed.

Lemma wf_keeps_trans s1 s2 s3 :
  wf_keeps s1 s2 -> wf_keeps s2 s3 -> wf_keeps s1 s3.
Proof. unfold wf_keeps. auto. Qed.

(** Closes the side conditions of the lemmas of [Stable] for [wf_keeps]:
    the writes that leave [propose_data] alone and do not shorten the
    store. *)
Ltac wf_side :=
  first
    [ exact wf_keeps_trans
    | exact wf_keeps_refl
    | by (unfold wf_keeps, wf; cbn; intros; rewrite ?length_insert; eauto)
    | by (unfold wf_keeps, wf; cbn; intros; rewrite length_app; cbn;
          match goal with
          | H : forall _ _, _ -> _, H' : _ !! _ = Some _ |- _ =>
              apply H in H'; lia
          end) ].

Lemma wf_broadcast_prepare_request seq n s :
  wf_keeps s (final (broadcast_prepare_request seq n s)).
Proof.
  unfold broadcast_prepare_request. mred.
  destruct (out s) as [q|] eqn:Hout; mred; [|apply wf_keeps_refl].
  rewrite Hout. mred. intros Hwf.
  apply (preserves_recv_prepare wf_keeps); try wf_side.
  intros seq' r. cbn. rewrite length_app. cbn.
  destruct (decide (seq = seq')) as [->|Hne].
  - rewrite lookup_insert_eq. intros [= <-]. lia.
  - rewrite lookup_insert_ne by done. intros Hr. apply Hwf in Hr. lia.
Qed.

Lemma wf_next g s : wf_keeps s (final (next g s)).
Proof.
  destruct g as [seq v|seq v n temp|seq v n temp|]; unfold next; mred;
    try apply wf_keeps_refl.
  - destruct (dict_get seq (accept_state s)) as [state|];
      [|apply wf_keeps_refl].
    pose proof (wf_broadcast_prepare_request seq (np state + 1) s) as H.
    destruct (broadcast_prepare_request _ _ s) as [[] s1|e s1]; cbn in H;
      [|done].
    mred. by destruct (propose_data s1 !! seq).
  - destruct (heap s !! temp) as [i|]; [|apply wf_keeps_refl].
    destruct (ProposeInfo.prepared i); [|apply wf_keeps_refl].
    assert (wf_keeps s (final (broadcast_accept_request seq n v s))) as H
      by (apply (preserves_broadcast_accept_request wf_keeps); wf_side).
    by destruct (broadcast_accept_request seq n v s).
  - destruct (heap s !! temp) as [i|]; [|apply wf_keeps_refl].
    destruct (ProposeInfo.accepted i); [|apply wf_keeps_refl].
    assert (wf_keeps s (final (broadcast_decide_request seq v s))) as H
      by (apply (preserves_broadcast_decide_request wf_keeps); wf_side).
    by destruct (broadcast_decide_request seq v s).
Qed.

(** Every reference in [propose_data] points into the store, on every
    state reached from [__init__]: [deref] never meets a dangling one
    there. *)
Lemma wf_exec c s : wf_keeps s (exec c s).
Proof.
  destruct c; cbn [exec];
    first
      [ apply wf_keeps_refl
      | apply wf_next
      | apply wf_broadcast_prepare_request
      | apply (preserves_start wf_keeps); wf_side
      | apply (preserves_propose_timeout wf_keeps); wf_side
      | apply (preserves_do_mem_shrink wf_keeps); wf_side
      | apply (preserves_min wf_keeps); wf_side
      | apply (preserves_status wf_keeps); wf_side
      | apply (preserves_is_decided wf_keeps); wf_side
      | apply (preserves_new_packet wf_keeps); wf_side
      | apply (preserves_broadcast_accept_request wf_keeps); wf_side
      | apply (preserves_broadcast_decide_request wf_keeps); wf_side
      | apply (preserves_send_packet_to wf_keeps); wf_side
      | apply (preserves_recv_prepare wf_keeps); wf_side
      | apply (preserves_recv_accept wf_keeps); wf_side
      | apply (preserves_recv_prepare_reply wf_keeps); wf_side
      | apply (preserves_recv_accept_reply wf_keeps); wf_side
      | apply (preserves_recv_decided_request wf_keeps); wf_side
      | apply (preserves_put wf_keeps); wf_side ].
Qed.

Lemma wf_constructed peers0 me0 out0 s cs :
  __init__ peers0 me0 out0 = inr s -> wf (exec_all cs s).
Proof.
  intros Hinit. apply init_inv in Hinit as (_&_&_&_&_&_&_&_&Hp&_).
  assert (wf s) as Hwf. { intros seq r. by rewrite Hp, lookup_empty. }
  clear Hp. revert s Hwf. induction cs as [|c cs IH]; intros s Hwf; cbn.
  - done.
  - apply IH. by apply wf_exec.
Qed.

(** ** A constructed peer under its entry points *)

Lemma entry_call_inert c s :
  entry_call c ->
  done_seqs s = [] -> propose_data s = ∅ ->
  exec c s = s \/ exists m, exec c s = set_max_seq_seen m s.
Proof.
  intros Hc Hd Hp. destruct c; try done; cbn [exec].
  - by left.
  - unfold start. mred. destruct (_ <? _); [right|left]; eauto.
  - by left.
  - left. unfold do_mem_shrink. mred. by rewrite Hd.
  - left. unfold min, do_mem_shrink. mred. by rewrite Hd.
  - left. unfold status, min, do_mem_shrink. mred. by rewrite Hd.
  - left. unfold is_decided, status, min, do_mem_shrink. mred. by rewrite Hd.
  - left. rewrite put_eq, Hp, lookup_empty. by destruct (bool_decide _).
  - by left.
Qed.

Lemma entry_calls_inert cs s0 s1 :
  Forall entry_call cs ->
  done_seqs s1 = [] -> propose_data s1 = ∅ ->
  s1 = set_max_seq_seen (max_seq_seen s1) s0 ->
  exec_all cs s1 = set_max_seq_seen (max_seq_seen (exec_all cs s1)) s0.
Proof.
  intros Hcs. revert s1.
  induction Hcs as [|c cs Hc _ IH]; intros s1 Hd Hp Hs; cbn [exec_all foldl].
  - done.
  - destruct (entry_call_inert c s1 Hc Hd Hp) as [->|[m ->]]; [by apply IH|].
    apply IH; [done|done|]. rewrite Hs. reflexivity.
Qed.

(** Under the calls that an application and the transport make on it
    ([start], [status], [is_decided], [min], [put], ...), a peer built by
    [__init__] only ever changes its [max_seq_seen]: it sends no packet,
    opens no round and learns no value. *)
Lemma constructed_peer_inert peers0 me0 out0 s cs :
  __init__ peers0 me0 out0 = inr s ->
  Forall entry_call cs ->
  exec_all cs s = set_max_seq_seen (max_seq_seen (exec_all cs s)) s.
Proof.
  intros Hinit Hcs. apply init_inv in Hinit as (_&_&_&_&_&Hd&_&_&Hp&_).
  apply entry_calls_inert; try done. by destruct s.
Qed.

(** ** C1: two peers that decide different values *)


(** The Prepare replies had told peer b of the value accepted under
    proposal 1: its round holds [(maxna, v1) = (1, "alpha")].  Its Accept
    carried ["beta"] all the same, and a and c accepted it. *)
Example C1_second_proposer_had_seen_alpha :
  match alpha_then_beta with
  | Some (a, b, c) =>
      (fun i => (ProposeInfo.maxna i, ProposeInfo.v1 i)) <$> heap b =
        [(1, "alpha")] /\
      accept_state a = [(12, mkState 2 2 "beta")] /\
      accept_state c = [(12, mkState 2 2 "beta")]
  | None => False
  end.
Proof. vm_compute. done. Qed.

(** * Further properties of the class *)

(** ** From the handlers to every call

    A relation that the handlers and the broadcasts keep is kept by the
    methods built from them: the dispatcher, the queries, the resumption of
    a generator, and so by every sequence of calls. *)

Section Closure.
Variable R : t -> t -> Prop.
Hypothesis R_refl : forall s, R s s.
Hypothesis R_trans : forall s1 s2 s3, R s1 s2 -> R s2 s3 -> R s1 s3.
Hypothesis R_processes : forall x s, R s (set_processes x s).
Hypothesis H_start : forall seq v, preserves R (start seq v).
Hypothesis H_new_packet : forall p d, preserves R (new_packet p d).
Hypothesis H_send_packet_to : forall p d, preserves R (send_packet_to p d).
Hypothesis H_recv_prepare : forall p, preserves R (recv_prepare p).
Hypothesis H_recv_accept : forall p, preserves R (recv_accept p).
Hypothesis H_recv_prepare_reply : forall p, preserves R (recv_prepare_reply p).
Hypothesis H_recv_accept_reply : forall p, preserves R (recv_accept_reply p).
Hypothesis H_recv_decided_request :
  forall p, preserves R (recv_decided_request p).
Hypothesis H_broadcast_prepare_request :
  forall seq n, preserves R (broadcast_prepare_request seq n).
Hypothesis H_broadcast_accept_request :
  forall seq n v, preserves R (broadcast_accept_request seq n v).
Hypothesis H_broadcast_decide_request :
  forall seq v, preserves R (broadcast_decide_request seq v).
Hypothesis H_do_mem_shrink : preserves R do_mem_shrink.
Hypothesis H_propose_timeout : forall seq v, preserves R (propose_timeout seq v).

Ltac close_step :=
  match goal with
  | |- preserves _ (bind _ _) => apply (preserves_bind R R_trans); [|intros ?]
  | |- preserves _ (gets _) => apply (preserves_gets R R_refl)
  | |- preserves _ (ret _) => apply (preserves_ret R R_refl)
  | |- preserves _ (raise _) => apply (preserves_raise R R_refl)
  | |- preserves _ (assert _) => apply (preserves_assert R R_refl)
  | |- preserves _ (or_raise _ _) => apply (preserves_or_raise R R_refl)
  | |- preserves _ (modify _) =>
      apply preserves_modify; intros ?; apply R_processes
  | |- preserves _ (if ?b then _ else _) => destruct b
  | |- preserves _ (match ?x with _ => _ end) => destruct x
  | |- preserves _ _ => solve [auto]
  end.
Ltac close :=
  unfold get_state, get_propose_data, deref, attr, dprint; cbv zeta;
  repeat close_step.

Lemma closure_min : preserves R min.
Proof. unfold min. close. Qed.

Lemma closure_status seq : preserves R (status seq).
Proof. unfold status. pose proof closure_min. close. Qed.

Lemma closure_is_decided seq : preserves R (is_decided seq).
Proof. unfold is_decided. pose proof closure_status. close. Qed.

Lemma closure_put packet : preserves R (put packet).
Proof. unfold put. close. Qed.

Lemma closure_next g : preserves R (next g).
Proof. unfold next. close. Qed.

Lemma closure_exec c s : R s (exec c s).
Proof.
  destruct c; cbn [exec];
    first [ apply R_refl | apply H_start | apply closure_next
          | apply H_propose_timeout | apply H_do_mem_shrink
          | apply closure_min | apply closure_status
          | apply closure_is_decided | apply H_new_packet
          | apply H_broadcast_prepare_request
          | apply H_broadcast_accept_request
          | apply H_broadcast_decide_request | apply H_send_packet_to
          | apply H_recv_prepare | apply H_recv_accept
          | apply H_recv_prepare_reply | apply H_recv_accept_reply
          | apply H_recv_decided_request | apply closure_put ].
Qed.

Lemma closure_exec_all cs s : R s (exec_all cs s).
Proof.
  revert s. induction cs as [|c cs IH]; intros s; cbn.
  - apply R_refl.
  - eapply R_trans; [apply closure_exec|apply IH].
Qed.

End Closure.

(** Steps through a computation for a relation [R] given with its proofs
    of reflexivity and transitivity; [leaf] closes the calls of methods. *)
Ltac chain R refl trans leaf :=
  cbv zeta;
  repeat match goal with
    | |- preserves _ (bind _ _) => apply (preserves_bind R trans); [|intros ?]
    | |- preserves _ (gets _) => apply (preserves_gets R refl)
    | |- preserves _ (ret _) => apply (preserves_ret R refl)
    | |- preserves _ (raise _) => apply (preserves_raise R refl)
    | |- preserves _ (assert _) => apply (preserves_assert R refl)
    | |- preserves _ (or_raise _ _) => apply (preserves_or_raise R refl)
    | |- preserves _ (attr _) => apply (preserves_or_raise R refl)
    | |- preserves _ (if ?b then _ else _) => destruct b
    | |- preserves _ (match ?x with _ => _ end) => destruct x
    | |- preserves _ _ => leaf
    end.

(** ** The done watermarks never go down *)

Lemma watermarks_le_refl s : watermarks_le s s.
Proof. split; [done|]. eauto using Z.le_refl. Qed.

Lemma watermarks_le_trans s1 s2 s3 :
  watermarks_le s1 s2 -> watermarks_le s2 s3 -> watermarks_le s1 s3.
Proof.
  intros [Hl1 H1] [Hl2 H2]. split; [congruence|]. intros k d Hk.
  destruct (H1 k d Hk) as (d1 & Hk1 & Hle1).
  destruct (H2 k d1 Hk1) as (d2 & Hk2 & Hle2).
  exists d2. split; [done|lia].
Qed.

Lemma watermarks_le_same s s' :
  done_seqs s' = done_seqs s -> watermarks_le s s'.
Proof. intros H. unfold watermarks_le. rewrite H. apply watermarks_le_refl. Qed.

(** Closes the side conditions of the lemmas of [Stable] for a relation
    that only reads [done_seqs]. *)
Ltac watermarks_side :=
  first [ exact watermarks_le_refl | exact watermarks_le_trans
        | by (intros; apply watermarks_le_same) ].

Lemma watermarks_le_recv_decided_request packet :
  preserves watermarks_le (recv_decided_request packet).
Proof.
  intros s. unfold recv_decided_request. mred.
  destruct (Attr.value _) as [v|]; [|by apply watermarks_le_same]. mred.
  destruct (Attr.sender _) as [sender|]; [|by apply watermarks_le_same].
  destruct (py_pos (done_seqs s) sender) as [k|];
    [|by apply watermarks_le_same].
  destruct (done_seqs s !! k) as [d|] eqn:Hk; [|by apply watermarks_le_same].
  destruct (Attr.done_seq _) as [done_seq|]; [|by apply watermarks_le_same].
  destruct (d <? done_seq) eqn:Hlt; mred; [|by apply watermarks_le_same].
  split; cbn; [by rewrite length_insert|]. intros k' d' Hk'.
  destruct (decide (k = k')) as [<-|Hne].
  - rewrite list_lookup_insert_eq by (by eapply lookup_lt_Some).
    exists done_seq. split; [done|]. rewrite Hk in Hk'. injection Hk' as <-. lia.
  - rewrite list_lookup_insert_ne by done. exists d'. split; [done|lia].
Qed.

Lemma watermarks_le_broadcast_decide_request seq v :
  preserves watermarks_le (broadcast_decide_request seq v).
Proof.
  unfold broadcast_decide_request, assert_out, out_put.
  chain watermarks_le watermarks_le_refl watermarks_le_trans
    ltac:(first [ apply watermarks_le_recv_decided_request
                | apply preserves_new_packet; watermarks_side
                | apply preserves_modify; intros ?; by apply watermarks_le_same ]).
Qed.

(** X1.  No method lowers a done watermark or changes how many there are:
    over any sequence of calls each entry of [done_seqs] stays in place
    and is at least what it was. *)
Theorem X1_done_watermarks_never_decrease cs s k d :
  done_seqs s !! k = Some d ->
  length (done_seqs (exec_all cs s)) = length (done_seqs s) /\
  exists d', done_seqs (exec_all cs s) !! k = Some d' /\ d <= d'.
Proof.
  intros Hk.
  assert (watermarks_le s (exec_all cs s)) as [Hlen H].
  { apply closure_exec_all;
      first [ exact watermarks_le_refl | exact watermarks_le_trans
            | exact watermarks_le_recv_decided_request
            | exact watermarks_le_broadcast_decide_request
            | by (intros; apply watermarks_le_same)
            | intros; apply preserves_start; watermarks_side
            | intros; apply preserves_new_packet; watermarks_side
            | intros; apply preserves_send_packet_to; watermarks_side
            | intros; apply preserves_recv_prepare; watermarks_side
            | intros; apply preserves_recv_accept; watermarks_side
            | intros; apply preserves_recv_prepare_reply; watermarks_side
            | intros; apply preserves_recv_accept_reply; watermarks_side
            | intros; apply preserves_broadcast_prepare_request; watermarks_side
            | intros; apply preserves_broadcast_accept_request; watermarks_side
            | intros; apply preserves_do_mem_shrink; watermarks_side
            | intros; apply preserves_propose_timeout; watermarks_side ]. }
  split; [exact Hlen|]. by apply H.
Qed.

Lemma X1_witness :
  length (done_seqs (exec_all
    [CRecvDecidedRequest (Packet.mk 40 1 "b" "" (DecidedRequest 9 1 7 "v"));
     CRecvDecidedRequest (Packet.mk 40 2 "b" "" (DecidedRequest 9 1 2 "w"))]
    watermarks354)) = length (done_seqs watermarks354) /\
  exists d',
    done_seqs (exec_all
      [CRecvDecidedRequest (Packet.mk 40 1 "b" "" (DecidedRequest 9 1 7 "v"));
       CRecvDecidedRequest (Packet.mk 40 2 "b" "" (DecidedRequest 9 1 2 "w"))]
      watermarks354) !! 1%nat = Some d' /\ 5 <= d'.
Proof.
  apply (X1_done_watermarks_never_decrease _ watermarks354 1%nat 5).
  reflexivity.
Defined.

(** ** What [do_mem_shrink] does *)

(** The loop of [do_mem_shrink] over keys of the table: with no key at or
    below [mins] it ends and changes nothing; otherwise it deletes the
    first such key from [accept_state], then from [values], and is stopped
    by the [KeyError] of the second deletion or by the iterator, which
    refuses to go on over a dictionary that changed size. *)
Lemma shrink_loop_eq mins ks s :
  (forall k, k ∈ ks -> is_Some (dict_get k (accept_state s))) ->
  shrink_loop (length (accept_state s)) mins ks s =
    match first_at_most mins ks with
    | None => Ok tt s
    | Some k =>
        let s1 := set_accept_state (dict_del k (accept_state s)) s in
        match values s !! k with
        | Some _ => Raise RuntimeError (set_values (delete k (values s)) s1)
        | None => Raise KeyError s1
        end
    end.
Proof.
  induction ks as [|k ks IH]; intros Hks; cbn [shrink_loop first_at_most];
    unfold bind at 1, gets at 1; rewrite bool_decide_false by naive_solver.
  - done.
  - destruct (k <=? mins) eqn:Hk.
    + destruct (Hks k) as [x Hx]; [apply elem_of_cons; by left|].
      pose proof (dict_del_length (accept_state s) k (mk_is_Some _ _ Hx)) as Hlt.
      mred. rewrite Hx. mred. destruct (values s !! k); mred; [|done].
      destruct ks; cbn [shrink_loop]; mred;
        rewrite bool_decide_true by lia; done.
    + unfold bind at 1, ret at 1. apply IH. intros k' Hk'. apply Hks.
      apply elem_of_cons. by right.
Qed.

Lemma do_mem_shrink_eq s :
  do_mem_shrink s =
    match py_min (done_seqs s) with
    | None => Raise ValueError s
    | Some mins =>
        match first_at_most mins (dict_keys (accept_state s)) with
        | None => Ok (mins + 1) s
        | Some k =>
            let s1 := set_accept_state (dict_del k (accept_state s)) s in
            match values s !! k with
            | Some _ => Raise RuntimeError (set_values (delete k (values s)) s1)
            | None => Raise KeyError s1
            end
        end
    end.
Proof.
  unfold do_mem_shrink, bind at 1 2 3, gets at 1 2, or_raise.
  destruct (py_min (done_seqs s)) as [mins|]; [|done].
  unfold ret at 1, bind at 1. rewrite shrink_loop_eq.
  - destruct (first_at_most _ _) as [k|]; [|done]. cbv zeta.
    by destruct (values s !! k).
  - intros k Hk. by apply dict_get_keys.
Qed.


(** X2.  [do_mem_shrink] never gets a deletion done.  With an empty
    [done_seqs] it raises [ValueError].  Otherwise, if no key of
    [accept_state] is at or below the least watermark, it returns that
    watermark plus one and changes nothing; if there is one, it deletes the
    first such key (in the order of the dictionary) from [accept_state]
    and raises: [KeyError] when [values] has no entry for the key,
    [RuntimeError] (dictionary changed size during iteration) after it
    deleted the entry of [values] too. *)
Theorem X2_do_mem_shrink_outcomes s :
  do_mem_shrink s =
    match py_min (done_seqs s) with
    | None => Raise ValueError s
    | Some mins =>
        match first_at_most mins (dict_keys (accept_state s)) with
        | None => Ok (mins + 1) s
        | Some k =>
            let s1 := set_accept_state (dict_del k (accept_state s)) s in
            match values s !! k with
            | Some _ => Raise RuntimeError (set_values (delete k (values s)) s1)
            | None => Raise KeyError s1
            end
        end
    end.
Proof. apply do_mem_shrink_eq. Qed.

(** ** What [status] and [is_decided] do *)

Lemma status_eq seq s :
  status seq s =
    match do_mem_shrink s with
    | Ok m s' =>
        Ok (if seq <? m + 1 then (FORGOTTEN, "")
            else match values s' !! seq with
                 | Some v => (DECIDED, v)
                 | None => (PENDING, "")
                 end) s'
    | Raise e s' => Raise e s'
    end.
Proof.
  unfold status, min, bind, ret, gets.
  destruct (do_mem_shrink s) as [m s'|e s']; [|done].
  destruct (seq <? m + 1); [done|]. by destruct (values s' !! seq).
Qed.

Lemma first_at_most_None mins ks :
  first_at_most mins ks = None <-> Forall (fun k => mins < k) ks.
Proof.
  induction ks as [|k ks IH]; cbn; [by split|].
  destruct (k <=? mins) eqn:Hk.
  - split; [done|]. intros H. apply Forall_cons in H as [H _]. lia.
  - rewrite IH. split; [intros H; constructor; [lia|done]|].
    by intros [_ H]%Forall_cons.
Qed.

Lemma first_at_most_Some mins ks k :
  first_at_most mins ks = Some k -> k ∈ ks /\ k <= mins.
Proof.
  induction ks as [|k0 ks IH]; cbn; [done|].
  destruct (k0 <=? mins) eqn:Hk.
  - intros [= <-]. split; [apply elem_of_cons; by left|lia].
  - intros H. apply IH in H as [H1 H2]. split; [apply elem_of_cons; by right|done].
Qed.

(** X3.  On a peer whose acceptor table has no key at or below the least
    done watermark [mins], [status(seq)] returns without changing the peer:
    [FORGOTTEN] for every [seq] below [mins + 2], whether or not a value
    is recorded for it; above that, [DECIDED] with the recorded value when
    [values] has one and [PENDING] otherwise.  [is_decided] says whether
    the answer is [DECIDED]. *)
Theorem X3_status_answers s mins seq :
  py_min (done_seqs s) = Some mins ->
  Forall (fun k => mins < k) (dict_keys (accept_state s)) ->
  status seq s =
    Ok (if seq <? mins + 2 then (FORGOTTEN, "")
        else match values s !! seq with
             | Some v => (DECIDED, v)
             | None => (PENDING, "")
             end) s /\
  is_decided seq s =
    Ok (match values s !! seq with
        | Some _ => negb (seq <? mins + 2)
        | None => false
        end) s.
Proof.
  intros Hmin Hks. apply first_at_most_None in Hks.
  assert (status seq s =
    Ok (if seq <? mins + 2 then (FORGOTTEN, "")
        else match values s !! seq with
             | Some v => (DECIDED, v)
             | None => (PENDING, "")
             end) s) as Hst.
  { rewrite status_eq, do_mem_shrink_eq, Hmin, Hks.
    by replace (mins + 1 + 1) with (mins + 2) by lia. }
  split; [done|]. unfold is_decided, bind. rewrite Hst. unfold ret.
  destruct (seq <? mins + 2); by destruct (values s !! seq).
Qed.

Lemma X3_witness :
  status 4 settled = Ok (FORGOTTEN, "") settled /\
  is_decided 4 settled = Ok false settled.
Proof.
  apply (X3_status_answers settled 3 4); [reflexivity|].
  repeat constructor.
Defined.

Lemma first_at_most_is_Some mins ks k :
  k ∈ ks -> k <= mins -> is_Some (first_at_most mins ks).
Proof.
  intros Hin Hle. destruct (first_at_most mins ks) eqn:E; [done|].
  apply first_at_most_None in E. rewrite Forall_forall in E.
  apply E in Hin. lia.
Qed.

Lemma first_at_most_split mins ks k :
  first_at_most mins ks = Some k ->
  exists before after,
    ks = before ++ k :: after /\ Forall (fun j => mins < j) before.
Proof.
  induction ks as [|k0 ks IH]; cbn; [done|].
  destruct (k0 <=? mins) eqn:Hk.
  - intros [= <-]. by exists [], ks.
  - intros H. apply IH in H as (before & after & -> & Hb).
    exists (k0 :: before), after. split; [done|]. constructor; [lia|done].
Qed.

(** X4.  [status] is not a pure inspection.  When the acceptor table has
    a key at or below the least done watermark, [status(seq)] and
    [is_decided(seq)] raise for every [seq], and leave the peer with the
    first such key (in the order of the dictionary) deleted from
    [accept_state] and from [values]: they raise [RuntimeError] when
    [values] had an entry for that key and [KeyError] when it had none. *)
Theorem X4_status_deletes_and_raises s mins k0 x seq :
  py_min (done_seqs s) = Some mins ->
  dict_get k0 (accept_state s) = Some x ->
  k0 <= mins ->
  exists k e s',
    (exists before after,
       dict_keys (accept_state s) = before ++ k :: after /\
       Forall (fun j => mins < j) before) /\
    k <= mins /\ is_Some (dict_get k (accept_state s)) /\
    e = match values s !! k with
        | Some _ => RuntimeError
        | None => KeyError
        end /\
    (e = KeyError \/ e = RuntimeError) /\
    status seq s = Raise e s' /\
    is_decided seq s = Raise e s' /\
    s' = set_values (delete k (values s))
           (set_accept_state (dict_del k (accept_state s)) s) /\
    accept_state s' = dict_del k (accept_state s) /\
    dict_get k (accept_state s') = None /\
    values s' = delete k (values s).
Proof.
  intros Hmin Hk0 Hle.
  destruct (first_at_most_is_Some mins (dict_keys (accept_state s)) k0)
    as [k Hk]; [by apply dict_get_keys|done|].
  destruct (first_at_most_Some _ _ _ Hk) as [Hin Hkle].
  apply dict_get_keys in Hin.
  set (s' := set_values (delete k (values s))
               (set_accept_state (dict_del k (accept_state s)) s)).
  set (e := match values s !! k with
            | Some _ => RuntimeError
            | None => KeyError
            end).
  assert (do_mem_shrink s = Raise e s') as Hd.
  { rewrite do_mem_shrink_eq, Hmin, Hk. cbv zeta. subst e s'.
    destruct (values s !! k) eqn:Hvk; [done|].
    rewrite delete_id by done. by destruct s. }
  exists k, e, s'. split; [by eapply first_at_most_split|].
  repeat split; try done.
  - subst e. destruct (values s !! k); [by right|by left].
  - by rewrite status_eq, Hd.
  - unfold is_decided, bind. by rewrite status_eq, Hd.
  - subst s'. cbn. rewrite dict_get_del. by rewrite decide_True.
Qed.

Lemma X4_witness :
  exists k e s',
    (exists before after,
       dict_keys (accept_state to_shrink) = before ++ k :: after /\
       Forall (fun j => 3 < j) before) /\
    k <= 3 /\ is_Some (dict_get k (accept_state to_shrink)) /\
    e = match values to_shrink !! k with
        | Some _ => RuntimeError
        | None => KeyError
        end /\
    (e = KeyError \/ e = RuntimeError) /\
    status 8 to_shrink = Raise e s' /\
    is_decided 8 to_shrink = Raise e s' /\
    s' = set_values (delete k (values to_shrink))
           (set_accept_state (dict_del k (accept_state to_shrink)) to_shrink) /\
    accept_state s' = dict_del k (accept_state to_shrink) /\
    dict_get k (accept_state s') = None /\
    values s' = delete k (values to_shrink).
Proof.
  apply (X4_status_deletes_and_raises to_shrink 3 1 (mkState 0 0 "")).
  - reflexivity.
  - reflexivity.
  - lia.
Defined.

(** In the witness the key deleted is 2, the first one met. *)
Example status_deletes_first_key :
  status 8 to_shrink =
    Raise RuntimeError
      (mk ["a"; "b"; "c"] 0 "a" 0 (Some []) 0 [3; 5; 4] ∅
          [(6, mkState 1 1 "v"); (1, mkState 0 0 "")] ∅ [] []).
Proof. reflexivity. Qed.

(** ** What [recv_decided_request] does *)

Lemma py_pos_lt {A} (l : list A) i k :
  py_pos l i = Some k -> (k < length l)%nat.
Proof.
  unfold py_pos. cbv zeta. repeat case_match; intros [=]; subst; lia.
Qed.

Lemma py_index_pos {A} (l : list A) i :
  py_index l i = match py_pos l i with Some k => l !! k | None => None end.
Proof. done. Qed.

Lemma recv_decided_request_eq s packet seq sender done_seq v :
  Packet.payload packet = DecidedRequest seq sender done_seq v ->
  recv_decided_request packet s =
    let s1 := set_values (<[seq := v]> (values s)) s in
    match py_pos (done_seqs s) sender with
    | None => Raise IndexError s1
    | Some k =>
        match done_seqs s !! k with
        | Some d =>
            Ok tt (set_done_seqs (<[k := Z.max d done_seq]> (done_seqs s)) s1)
        | None => Raise IndexError s1
        end
    end.
Proof.
  intros Hp. unfold recv_decided_request. rewrite Hp. mred.
  destruct (py_pos (done_seqs s) sender) as [k|]; [|done]. mred.
  destruct (done_seqs s !! k) as [d|] eqn:Hk; [|done]. mred.
  destruct (d <? done_seq) eqn:Hlt; mred.
  - by replace (Z.max d done_seq) with done_seq by lia.
  - replace (Z.max d done_seq) with d by lia.
    by rewrite (list_insert_id _ _ _ Hk); destruct s.
Qed.

(** X5.  [recv_decided_request] on a [DecidedRequest(seq, sender, d, v)]
    first records [v] as the value of [seq], replacing whatever was
    recorded, and only then looks up the sender's watermark: with [sender]
    outside [-len, len) of [done_seqs] it raises [IndexError] and the
    value stays recorded; otherwise the sender's watermark (negative
    indices count from the end) becomes the larger of its old value and
    [d], and nothing else changes. *)
Theorem X5_recv_decided_request_learns_first s packet seq sender done_seq v :
  Packet.payload packet = DecidedRequest seq sender done_seq v ->
  let s1 := set_values (<[seq := v]> (values s)) s in
  match py_index (done_seqs s) sender with
  | None => recv_decided_request packet s = Raise IndexError s1
  | Some d =>
      exists k,
        py_pos (done_seqs s) sender = Some k /\
        recv_decided_request packet s =
          Ok tt (set_done_seqs (<[k := Z.max d done_seq]> (done_seqs s)) s1)
  end.
Proof.
  intros Hp. rewrite (recv_decided_request_eq _ _ _ _ _ _ Hp), py_index_pos.
  cbv zeta. destruct (py_pos (done_seqs s) sender) as [k|]; [|done].
  destruct (done_seqs s !! k) as [d|]; [|done]. by exists k.
Qed.

Lemma X5_witness :
  exists k,
    py_pos (done_seqs watermarks354) (-1) = Some k /\
    recv_decided_request
      (Packet.mk 40 1 "c" "" (DecidedRequest 9 (-1) 7 "v")) watermarks354 =
      Ok tt (set_done_seqs (<[k := Z.max 4 7]> (done_seqs watermarks354))
               (set_values (<[9 := "v"]> (values watermarks354)) watermarks354)).
Proof.
  exact (X5_recv_decided_request_learns_first watermarks354
           (Packet.mk 40 1 "c" "" (DecidedRequest 9 (-1) 7 "v"))
           9 (-1) 7 "v" eq_refl).
Defined.

(** X6.  On a peer built by [__init__], after any sequence of calls,
    [recv_decided_request] raises [IndexError] for every [DecidedRequest]
    ([done_seqs] is empty), and the value is recorded all the same. *)
Theorem X6_constructed_peer_learns_and_raises
    peers0 me0 out0 s cs packet seq sender done_seq v :
  __init__ peers0 me0 out0 = inr s ->
  Packet.payload packet = DecidedRequest seq sender done_seq v ->
  exists s',
    recv_decided_request packet (exec_all cs s) = Raise IndexError s' /\
    values s' !! seq = Some v.
Proof.
  intros Hinit Hp. apply init_inv in Hinit as (_&_&_&_&_&Hd&_).
  pose proof (same_done_length_exec_all cs s) as Hlen.
  unfold same_done_length in Hlen. rewrite Hd in Hlen.
  apply nil_length_inv in Hlen.
  rewrite (recv_decided_request_eq _ _ _ _ _ _ Hp), Hlen. cbv zeta.
  destruct (py_pos [] sender); cbn; eexists; (split; [done|]); cbn;
    by rewrite lookup_insert_eq.
Qed.

Lemma X6_witness :
  exists s',
    recv_decided_request (Packet.mk 40 1 "b" "" (DecidedRequest 7 1 0 "v"))
      (exec_all [CStart 7 "v"] fresh3) = Raise IndexError s' /\
    values s' !! 7 = Some "v".
Proof.
  exact (X6_constructed_peer_learns_and_raises ["a"; "b"; "c"] 0 (Some [])
           fresh3 [CStart 7 "v"]
           (Packet.mk 40 1 "b" "" (DecidedRequest 7 1 0 "v")) 7 1 0 "v"
           eq_refl eq_refl).
Defined.

(** ** [max_seq_seen] *)

Lemma max_seq_seen_le_refl s : max_seq_seen_le s s.
Proof. unfold max_seq_seen_le. lia. Qed.

Lemma max_seq_seen_le_trans s1 s2 s3 :
  max_seq_seen_le s1 s2 -> max_seq_seen_le s2 s3 -> max_seq_seen_le s1 s3.
Proof. unfold max_seq_seen_le. lia. Qed.

Ltac max_seq_seen_side :=
  first [ exact max_seq_seen_le_refl | exact max_seq_seen_le_trans
        | by (intros; unfold max_seq_seen_le; cbn; lia) ].

Lemma max_seq_seen_start seq v s :
  max_seq_seen (final (start seq v s)) = Z.max (max_seq_seen s) seq.
Proof. unfold start. mred. destruct (_ <? _) eqn:E; cbn; lia. Qed.

(** [recv_prepare] raises [max_seq_seen] before it looks for the acceptor
    state, so also when it then raises [KeyError]. *)
Lemma max_seq_seen_recv_prepare packet n s :
  Attr.proposal (Packet.payload packet) = Some n ->
  max_seq_seen (final (recv_prepare packet s)) =
    Z.max (max_seq_seen s) (Attr.instance (Packet.payload packet)).
Proof.
  intros Hn. unfold recv_prepare. mred. rewrite Hn. mred.
  assert (forall payload peer s0,
            max_seq_seen (final (send_packet_to payload peer s0))
            = max_seq_seen s0) as Hsend.
  { intros. rewrite send_packet_to_eq. destruct (decide _); [done|].
    cbv zeta. by destruct (out s0). }
  destruct (max_seq_seen s <? _) eqn:E; mred;
    (destruct (dict_get _ (accept_state s)) as [x|]; mred; [|lia]);
    destruct (np x <? n); mred; rewrite Hsend; cbn; lia.
Qed.

Lemma max_seq_seen_le_recv_prepare packet :
  preserves max_seq_seen_le (recv_prepare packet).
Proof.
  intros s. unfold max_seq_seen_le.
  destruct (Attr.proposal (Packet.payload packet)) as [n|] eqn:Hn.
  - rewrite (max_seq_seen_recv_prepare _ _ _ Hn). lia.
  - unfold recv_prepare. mred. rewrite Hn. cbn. lia.
Qed.

Lemma max_seq_seen_le_start seq v : preserves max_seq_seen_le (start seq v).
Proof. intros s. unfold max_seq_seen_le. rewrite max_seq_seen_start. lia. Qed.

Lemma max_seq_seen_le_broadcast_prepare_request seq n :
  preserves max_seq_seen_le (broadcast_prepare_request seq n).
Proof.
  unfold broadcast_prepare_request, assert_out, out_put.
  chain max_seq_seen_le max_seq_seen_le_refl max_seq_seen_le_trans
    ltac:(first [ apply max_seq_seen_le_recv_prepare
                | apply preserves_new_packet; max_seq_seen_side
                | apply preserves_alloc; max_seq_seen_side
                | apply preserves_modify; intros ?; max_seq_seen_side ]).
Qed.

Lemma max_seq_seen_le_exec_all cs s : max_seq_seen_le s (exec_all cs s).
Proof.
  apply closure_exec_all;
    first [ exact max_seq_seen_le_refl | exact max_seq_seen_le_trans
          | exact max_seq_seen_le_start
          | exact max_seq_seen_le_recv_prepare
          | exact max_seq_seen_le_broadcast_prepare_request
          | by (intros; unfold max_seq_seen_le; cbn; lia)
          | intros; apply preserves_new_packet; max_seq_seen_side
          | intros; apply preserves_send_packet_to; max_seq_seen_side
          | intros; apply preserves_recv_accept; max_seq_seen_side
          | intros; apply preserves_recv_prepare_reply; max_seq_seen_side
          | intros; apply preserves_recv_accept_reply; max_seq_seen_side
          | intros; apply preserves_recv_decided_request; max_seq_seen_side
          | intros; apply preserves_broadcast_accept_request; max_seq_seen_side
          | intros; apply preserves_broadcast_decide_request; max_seq_seen_side
          | intros; apply preserves_do_mem_shrink; max_seq_seen_side
          | intros; apply preserves_propose_timeout; max_seq_seen_side ].
Qed.

(** ** The port and the packet counter *)

Lemma ids_between_le lo q hi : ids_between lo q hi -> lo <= hi.
Proof.
  revert lo. induction q as [|p q IH]; intros lo; cbn; [done|].
  intros [Hlt H]. apply IH in H. lia.
Qed.

Lemma ids_between_weaken lo lo' q hi :
  lo' <= lo -> ids_between lo q hi -> ids_between lo' q hi.
Proof. destruct q; cbn; [lia|]. intros ? [? ?]. split; [lia|done]. Qed.

Lemma ids_between_app lo q1 mid q2 hi :
  ids_between lo q1 mid -> ids_between mid q2 hi ->
  ids_between lo (q1 ++ q2) hi.
Proof.
  revert lo. induction q1 as [|p q1 IH]; intros lo; cbn.
  - intros. by eapply ids_between_weaken.
  - intros [Hlt H1] H2. split; [done|]. by apply IH.
Qed.

Lemma sent_refl s : sent s s.
Proof.
  split; [done|]. destruct (out s) as [q|]; [|split; [done|lia]].
  exists []. rewrite app_nil_r. repeat split; [cbn; lia|constructor].
Qed.

Lemma sent_trans s1 s2 s3 : sent s1 s2 -> sent s2 s3 -> sent s1 s3.
Proof.
  intros [Hid1 H1] [Hid2 H2]. split; [congruence|].
  destruct (out s1) as [q|].
  - destruct H1 as (n1 & Ho1 & Hi1 & Hs1). rewrite Ho1 in H2.
    destruct H2 as (n2 & Ho2 & Hi2 & Hs2).
    exists (n1 ++ n2). rewrite Ho2, app_assoc. split; [done|]. split.
    + by eapply ids_between_app.
    + apply Forall_app. split; [done|]. by rewrite <- Hid1.
  - destruct H1 as [Ho1 Hle1]. rewrite Ho1 in H2. destruct H2 as [Ho2 Hle2].
    split; [done|lia].
Qed.

(** A write that touches neither the port, nor the counter, nor [id]. *)
Lemma sent_same s s' :
  id s' = id s -> out s' = out s -> packet_id s' = packet_id s -> sent s s'.
Proof.
  intros Hid Ho Hp. split; [done|]. rewrite Ho, Hp.
  destruct (out s) as [q|]; [|split; [done|lia]].
  exists []. rewrite app_nil_r. repeat split; [cbn; lia|constructor].
Qed.

Ltac sent_side :=
  first [ exact sent_refl | exact sent_trans
        | by (intros; apply sent_same) ].

Lemma sent_new_packet payload dst : preserves sent (new_packet payload dst).
Proof.
  intros s. unfold new_packet. mred. split; [done|]. cbn.
  destruct (out s) as [q|]; [|split; [done|lia]].
  exists []. rewrite app_nil_r. repeat split; [cbn; lia|constructor].
Qed.

(** One packet goes out, numbered one above the counter. *)
Lemma sent_one s q dst payload s' :
  out s = Some q ->
  id s' = id s ->
  packet_id s' = packet_id s + 1 ->
  out s' = Some (q ++ [Packet.mk 40 (packet_id s + 1) (id s) dst payload]) ->
  sent s s'.
Proof.
  intros Ho Hid Hp Ho'. split; [done|]. rewrite Ho.
  eexists. split; [exact Ho'|]. cbn. rewrite Hp.
  split; [lia|]. by repeat constructor.
Qed.

Lemma sent_send_packet_to payload peer :
  preserves sent (send_packet_to payload peer).
Proof.
  intros s. rewrite send_packet_to_eq.
  destruct (decide _); [apply sent_refl|]. cbv zeta.
  destruct (out s) as [q|] eqn:Ho; cbn [final].
  - by eapply sent_one.
  - split; [done|]. rewrite Ho. cbn. split; [done|lia].
Qed.

Lemma sent_recv_prepare packet : preserves sent (recv_prepare packet).
Proof.
  unfold recv_prepare, get_state, put_state.
  chain sent sent_refl sent_trans
    ltac:(first [ apply sent_send_packet_to
                | apply preserves_modify; intros ?; sent_side ]).
Qed.

Lemma sent_recv_accept packet : preserves sent (recv_accept packet).
Proof.
  unfold recv_accept, get_state, put_state.
  chain sent sent_refl sent_trans
    ltac:(first [ apply sent_send_packet_to
                | apply preserves_modify; intros ?; sent_side ]).
Qed.

Lemma sent_broadcast_prepare_request seq n :
  preserves sent (broadcast_prepare_request seq n).
Proof.
  intros s. unfold broadcast_prepare_request. mred.
  destruct (out s) as [q|] eqn:Ho; mred; [|apply sent_refl].
  rewrite Ho. mred.
  eapply sent_trans; [|apply sent_recv_prepare]. by eapply sent_one.
Qed.

Lemma sent_broadcast_accept_request seq n v :
  preserves sent (broadcast_accept_request seq n v).
Proof.
  intros s. unfold broadcast_accept_request. mred.
  destruct (out s) as [q|] eqn:Ho; mred; [|apply sent_refl].
  destruct (propose_data s !! seq); mred; [|apply sent_refl].
  rewrite Ho. mred.
  eapply sent_trans; [|apply sent_recv_accept]. by eapply sent_one.
Qed.

Lemma sent_broadcast_decide_request seq v :
  preserves sent (broadcast_decide_request seq v).
Proof.
  intros s. unfold broadcast_decide_request. mred.
  destruct (py_index (done_seqs s) (me s)) as [d|]; mred; [|apply sent_refl].
  destruct (out s) as [q|] eqn:Ho; mred; rewrite ?Ho; mred.
  - eapply sent_trans;
      [|apply (preserves_recv_decided_request sent); sent_side].
    by eapply sent_one.
  - split; [done|]. rewrite Ho. cbn. split; [done|lia].
Qed.

Lemma sent_exec_all cs s : sent s (exec_all cs s).
Proof.
  apply closure_exec_all;
    first [ exact sent_refl | exact sent_trans
          | exact sent_new_packet | exact sent_send_packet_to
          | exact sent_recv_prepare | exact sent_recv_accept
          | exact sent_broadcast_prepare_request
          | exact sent_broadcast_accept_request
          | exact sent_broadcast_decide_request
          | by (intros; apply sent_same)
          | intros; apply preserves_start; sent_side
          | intros; apply preserves_recv_prepare_reply; sent_side
          | intros; apply preserves_recv_accept_reply; sent_side
          | intros; apply preserves_recv_decided_request; sent_side
          | intros; apply preserves_do_mem_shrink; sent_side
          | intros; apply preserves_propose_timeout; sent_side ].
Qed.

(** X8.  The port is only appended to, and every packet a peer puts on it
    carries a fresh id: over any sequence of calls the queue that was
    there stays as a prefix, the packets added have the peer's own [id]
    as source and ids that go strictly up, starting above the packet
    counter the sequence began with and ending at most at the counter it
    leaves.  The counter itself never decreases. *)
Theorem X8_port_is_appended_with_fresh_ids cs s q :
  out s = Some q ->
  exists new,
    out (exec_all cs s) = Some (q ++ new) /\
    ids_between (packet_id s) new (packet_id (exec_all cs s)) /\
    Forall (fun p => Packet.src p = id s) new /\
    packet_id s <= packet_id (exec_all cs s).
Proof.
  intros Ho. destruct (sent_exec_all cs s) as [_ H]. rewrite Ho in H.
  destruct H as (new & Ho' & Hids & Hsrc). exists new.
  repeat split; try done. by eapply ids_between_le.
Qed.

Lemma X8_witness :
  exists new,
    out (exec_all (prepare_phase ++ [CNext (AtPrepared 12 "new" 6 0)])
           before_round) = Some ([] ++ new) /\
    ids_between (packet_id before_round) new
      (packet_id (exec_all (prepare_phase ++ [CNext (AtPrepared 12 "new" 6 0)])
                    before_round)) /\
    Forall (fun p => Packet.src p = id before_round) new /\
    packet_id before_round <=
      packet_id (exec_all (prepare_phase ++ [CNext (AtPrepared 12 "new" 6 0)])
                   before_round).
Proof.
  apply (X8_port_is_appended_with_fresh_ids
           (prepare_phase ++ [CNext (AtPrepared 12 "new" 6 0)]) before_round []).
  reflexivity.
Defined.

(** ** What the broadcasts do *)

Lemma recv_prepare_own s packet seq n x :
  Packet.payload packet = PrepareRequest seq n ->
  Packet.src packet = id s ->
  dict_get seq (accept_state s) = Some x ->
  recv_prepare packet s =
    Ok tt (set_accept_state
             (if np x <? n
              then dict_set seq (mkState n (na x) (va x)) (accept_state s)
              else accept_state s)
             (set_max_seq_seen (Z.max (max_seq_seen s) seq) s)).
Proof.
  intros Hp Hsrc Hx. rewrite (recv_prepare_eq _ _ _ _ _ Hp Hx). cbv zeta.
  destruct (max_seq_seen s <? seq) eqn:Em;
    [replace (Z.max (max_seq_seen s) seq) with seq by lia
    |replace (Z.max (max_seq_seen s) seq) with (max_seq_seen s) by lia];
    destruct (np x <? n); rewrite send_packet_to_eq, decide_True by done;
    by destruct s.
Qed.

Lemma broadcast_prepare_request_eq seq n s :
  broadcast_prepare_request seq n s =
    match out s with
    | None => Raise AssertionError s
    | Some q =>
        let pid := packet_id s + 1 in
        let pkt := Packet.mk 40 pid (id s) "" (PrepareRequest seq n) in
        recv_prepare pkt
          (set_propose_data (<[seq := length (heap s)]> (propose_data s))
             (set_heap (heap s ++ [ProposeInfo.new pid])
                (set_out (Some (q ++ [pkt])) (set_packet_id pid s))))
    end.
Proof.
  unfold broadcast_prepare_request. mred.
  destruct (out s) as [q|] eqn:Ho; mred; [|done]. by rewrite Ho.
Qed.

Lemma broadcast_prepare_request_ok s seq n q x :
  out s = Some q ->
  dict_get seq (accept_state s) = Some x ->
  let pid := packet_id s + 1 in
  let pkt := Packet.mk 40 pid (id s) "" (PrepareRequest seq n) in
  let s1 :=
    set_propose_data (<[seq := length (heap s)]> (propose_data s))
      (set_heap (heap s ++ [ProposeInfo.new pid])
         (set_out (Some (q ++ [pkt])) (set_packet_id pid s))) in
  broadcast_prepare_request seq n s =
    Ok tt (set_accept_state
             (if np x <? n
              then dict_set seq (mkState n (na x) (va x)) (accept_state s)
              else accept_state s)
             (set_max_seq_seen (Z.max (max_seq_seen s) seq) s1)).
Proof.
  intros Ho Hx. rewrite broadcast_prepare_request_eq, Ho. cbv zeta.
  by erewrite recv_prepare_own; [|done|done|exact Hx].
Qed.

(** X9.  [broadcast_prepare_request(seq, n)] on a peer with a port and an
    acceptor entry for [seq]: exactly one packet goes out, the
    [PrepareRequest(seq, n)], to everybody and under a fresh packet id;
    that id becomes the token of a new round for [seq] whose counters are
    zero; the peer's own acceptor promises [n] when [n] is above its [np];
    no reply is made for that promise, so the peer's own vote is not
    counted. *)
Theorem X9_broadcast_prepare_request_effects s seq n q x :
  out s = Some q ->
  dict_get seq (accept_state s) = Some x ->
  exists s',
    broadcast_prepare_request seq n s = Ok tt s' /\
    out s' = Some (q ++ [Packet.mk 40 (packet_id s + 1) (id s) ""
                           (PrepareRequest seq n)]) /\
    packet_id s' = packet_id s + 1 /\
    propose_data s' = <[seq := length (heap s)]> (propose_data s) /\
    heap s' = heap s ++ [ProposeInfo.new (packet_id s + 1)] /\
    dict_get seq (accept_state s') =
      Some (if np x <? n then mkState n (na x) (va x) else x) /\
    max_seq_seen s' = Z.max (max_seq_seen s) seq.
Proof.
  intros Ho Hx. rewrite (broadcast_prepare_request_ok _ _ _ _ _ Ho Hx).
  eexists. split; [done|]. cbn. repeat split.
  destruct (np x <? n); [|done]. by erewrite dict_get_set_eq.
Qed.

Lemma X9_witness :
  exists s',
    broadcast_prepare_request 12 6 before_round = Ok tt s' /\
    out s' = Some ([] ++ [Packet.mk 40 (packet_id before_round + 1)
                            (id before_round) "" (PrepareRequest 12 6)]) /\
    packet_id s' = packet_id before_round + 1 /\
    propose_data s' =
      <[12 := length (heap before_round)]> (propose_data before_round) /\
    heap s' = heap before_round ++
              [ProposeInfo.new (packet_id before_round + 1)] /\
    dict_get 12 (accept_state s') =
      Some (if np (mkState 5 0 "") <? 6
            then mkState 6 (na (mkState 5 0 "")) (va (mkState 5 0 ""))
            else mkState 5 0 "") /\
    max_seq_seen s' = Z.max (max_seq_seen before_round) 12.
Proof.
  apply (X9_broadcast_prepare_request_effects before_round 12 6 []
           (mkState 5 0 "")); reflexivity.
Defined.

(** X10.  [broadcast_prepare_request(seq, n)] on a peer with a port but
    without an acceptor entry for [seq] raises [KeyError] only after it
    has sent the request and recorded the round: the packet is on the
    port, the counter has moved, and [propose_data] holds a new round for
    [seq]. *)
Theorem X10_broadcast_prepare_request_raises_late s seq n q :
  out s = Some q ->
  dict_get seq (accept_state s) = None ->
  exists s',
    broadcast_prepare_request seq n s = Raise KeyError s' /\
    out s' = Some (q ++ [Packet.mk 40 (packet_id s + 1) (id s) ""
                           (PrepareRequest seq n)]) /\
    packet_id s' = packet_id s + 1 /\
    propose_data s' !! seq = Some (length (heap s)) /\
    heap s' !! length (heap s) = Some (ProposeInfo.new (packet_id s + 1)).
Proof.
  intros Ho Hx. rewrite broadcast_prepare_request_eq, Ho. cbv zeta.
  unfold recv_prepare. cbn [Packet.payload]. mred.
  destruct (max_seq_seen s <? seq); mred; rewrite Hx; eexists;
    (split; [done|]); cbn; rewrite lookup_insert_eq;
    (repeat split; []); by rewrite lookup_app_r, Nat.sub_diag.
Qed.

Lemma X10_witness :
  exists s',
    broadcast_prepare_request 7 1 fresh3 = Raise KeyError s' /\
    out s' = Some ([] ++ [Packet.mk 40 (packet_id fresh3 + 1) (id fresh3) ""
                            (PrepareRequest 7 1)]) /\
    packet_id s' = packet_id fresh3 + 1 /\
    propose_data s' !! 7 = Some (length (heap fresh3)) /\
    heap s' !! length (heap fresh3) =
      Some (ProposeInfo.new (packet_id fresh3 + 1)).
Proof.
  apply (X10_broadcast_prepare_request_raises_late fresh3 7 1 []);
    reflexivity.
Defined.

(** ** The first resumption of a proposal *)

(** X11.  Resuming a generator made by [propose(seq, v)] for the first
    time, on a peer with a port and an acceptor entry [x] for [seq]: the
    proposal number is [x.np + 1]; one [PrepareRequest(seq, x.np + 1)] goes
    out; the peer's own acceptor promises that number; a new round for
    [seq] is recorded and is the one the frame keeps; one
    [propose_timeout] closure is handed to the simulator; the generator
    stops at its first [yield]. *)
Theorem X11_first_resumption_prepares s seq v q x :
  out s = Some q ->
  dict_get seq (accept_state s) = Some x ->
  exists s',
    next (propose seq v) s =
      Ok (AtPrepared seq v (np x + 1) (length (heap s))) s' /\
    out s' = Some (q ++ [Packet.mk 40 (packet_id s + 1) (id s) ""
                           (PrepareRequest seq (np x + 1))]) /\
    dict_get seq (accept_state s') = Some (mkState (np x + 1) (na x) (va x)) /\
    propose_data s' !! seq = Some (length (heap s)) /\
    heap s' !! length (heap s) = Some (ProposeInfo.new (packet_id s + 1)) /\
    processes s' = processes s ++ [(seq, v)].
Proof.
  intros Ho Hx. unfold propose, next. mred. rewrite Hx.
  rewrite (broadcast_prepare_request_ok _ _ _ _ _ Ho Hx). cbv zeta. mred.
  rewrite lookup_insert_eq. eexists. split; [done|]. cbn.
  replace (np x <? np x + 1) with true by lia.
  repeat split.
  - by erewrite dict_get_set_eq.
  - by rewrite lookup_insert_eq.
  - by rewrite lookup_app_r, Nat.sub_diag.
Qed.

Lemma X11_witness :
  exists s',
    next (propose 12 "new") before_round =
      Ok (AtPrepared 12 "new" (np (mkState 5 0 "") + 1)
            (length (heap before_round))) s' /\
    out s' = Some ([] ++ [Packet.mk 40 (packet_id before_round + 1)
                            (id before_round) ""
                            (PrepareRequest 12 (np (mkState 5 0 "") + 1))]) /\
    dict_get 12 (accept_state s') =
      Some (mkState (np (mkState 5 0 "") + 1) (na (mkState 5 0 ""))
              (va (mkState 5 0 ""))) /\
    propose_data s' !! 12 = Some (length (heap before_round)) /\
    heap s' !! length (heap before_round) =
      Some (ProposeInfo.new (packet_id before_round + 1)) /\
    processes s' = processes before_round ++ [(12, "new")].
Proof.
  apply (X11_first_resumption_prepares before_round 12 "new" []
           (mkState 5 0 "")); reflexivity.
Defined.

(** ** What [max_seq_seen] has seen *)

(** X7.  [max_seq_seen] never decreases, whatever is called, and it is at
    least every instance that was passed to [start] or that arrived in a
    Prepare request handled by [recv_prepare], whether [recv_prepare] was
    called directly, by [put], by [broadcast_prepare_request] or by the
    first resumption of a generator of [propose], and also when that call
    raised for want of acceptor state. *)
Theorem X7_max_seq_seen_bounds cs1 c cs2 s seq :
  shows_instance c (exec_all cs1 s) = Some seq ->
  max_seq_seen s <= max_seq_seen (exec_all (cs1 ++ c :: cs2) s) /\
  seq <= max_seq_seen (exec_all (cs1 ++ c :: cs2) s).
Proof.
  intros Hc. split; [apply max_seq_seen_le_exec_all|].
  unfold exec_all in *. rewrite foldl_app. cbn [foldl].
  set (s1 := foldl _ s cs1) in *.
  pose proof (max_seq_seen_le_exec_all cs2 (exec c s1)) as Hle.
  unfold max_seq_seen_le, exec_all in Hle.
  assert (seq <= max_seq_seen (exec c s1)); [|lia].
  destruct c; try done; cbn [shows_instance] in Hc; cbn [exec].
  - injection Hc as ->. rewrite max_seq_seen_start. lia.
  - destruct g as [seq0 v| | |]; try done.
    destruct (dict_get seq0 (accept_state s1)) as [x|] eqn:Hx; [|done].
    destruct (out s1) as [q|] eqn:Ho; [|done]. injection Hc as ->.
    unfold next. mred. rewrite Hx.
    rewrite (broadcast_prepare_request_ok _ _ _ _ _ Ho Hx). cbv zeta. mred.
    rewrite lookup_insert_eq. cbn. lia.
  - destruct (out s1) as [q|] eqn:Ho; [|done]. injection Hc as ->.
    rewrite broadcast_prepare_request_eq, Ho. cbv zeta.
    erewrite max_seq_seen_recv_prepare by done. cbn. lia.
  - destruct (Attr.proposal (Packet.payload packet)) as [n|] eqn:Hn; [|done].
    injection Hc as <-. rewrite (max_seq_seen_recv_prepare _ _ _ Hn). lia.
  - destruct (Packet.payload packet) as [| seq0 n | | | | |] eqn:Hp; try done.
    destruct (passes_put packet s1) eqn:Hpass; [|done]. injection Hc as ->.
    unfold passes_put in Hpass. rewrite Hp in Hpass. cbn [Attr.instance] in Hpass.
    apply andb_true_iff in Hpass as [Hdst Htok].
    rewrite put_eq, Hdst, Hp. cbn [Attr.instance].
    destruct (propose_data s1 !! seq) as [r|]; [|done].
    destruct (heap s1 !! r) as [temp|]; [|done].
    apply bool_decide_eq_true in Htok.
    rewrite bool_decide_false by (intros ?; done).
    erewrite max_seq_seen_recv_prepare by (rewrite Hp; done).
    rewrite Hp. cbn. lia.
Qed.

Lemma X7_witness :
  max_seq_seen fresh3 <=
    max_seq_seen (exec_all
      ([CStart 3 "v"] ++ CBroadcastPrepareRequest 9 1 :: [CStart 5 "w"])
      fresh3) /\
  9 <= max_seq_seen (exec_all
      ([CStart 3 "v"] ++ CBroadcastPrepareRequest 9 1 :: [CStart 5 "w"])
      fresh3).
Proof.
  apply (X7_max_seq_seen_bounds [CStart 3 "v"]
           (CBroadcastPrepareRequest 9 1) [CStart 5 "w"] fresh3 9).
  reflexivity.
Defined.

(** ** Announcing a decision *)

Lemma broadcast_decide_request_eq s seq v :
  broadcast_decide_request seq v s =
    match py_index (done_seqs s) (me s) with
    | None => Raise IndexError s
    | Some d =>
        let s1 := set_packet_id (packet_id s + 1) s in
        match out s with
        | None => Raise AssertionError s1
        | Some q =>
            Ok tt (set_values (<[seq := v]> (values s))
                     (set_out
                        (Some (q ++ [Packet.mk 40 (packet_id s + 1) (id s) ""
                                       (DecidedRequest seq (me s) d v)]))
                        s1))
        end
    end.
Proof.
  unfold broadcast_decide_request. mred.
  destruct (py_index (done_seqs s) (me s)) as [d|] eqn:Hd; [|done]. mred.
  destruct (out s) as [q|] eqn:Ho; mred; rewrite ?Ho; [|done]. mred.
  erewrite recv_decided_request_eq by done. cbv zeta.
  cbn [done_seqs set_values set_out set_packet_id].
  rewrite py_index_pos in Hd.
  destruct (py_pos (done_seqs s) (me s)) as [k|]; [|done]. rewrite Hd.
  replace (Z.max d d) with d by lia.
  by rewrite (list_insert_id _ _ _ Hd); destruct s.
Qed.

(** X12.  [broadcast_decide_request(seq, v)] reads the peer's own
    watermark [done_seqs[me]] before anything else.  When [me] is outside
    [done_seqs] it raises [IndexError] and nothing has changed: no packet,
    no value.  Otherwise the packet counter moves; then, without a port, it
    raises [AssertionError]; with a port one
    [DecidedRequest(seq, me, done_seqs[me], v)] goes out to everybody, [v]
    is recorded as the value of [seq], and the watermarks stay as they
    were. *)
Theorem X12_broadcast_decide_request_outcomes s seq v :
  broadcast_decide_request seq v s =
    match py_index (done_seqs s) (me s) with
    | None => Raise IndexError s
    | Some d =>
        let s1 := set_packet_id (packet_id s + 1) s in
        match out s with
        | None => Raise AssertionError s1
        | Some q =>
            Ok tt (set_values (<[seq := v]> (values s))
                     (set_out
                        (Some (q ++ [Packet.mk 40 (packet_id s + 1) (id s) ""
                                       (DecidedRequest seq (me s) d v)]))
                        s1))
        end
    end.
Proof. apply broadcast_decide_request_eq. Qed.

(** ** The timeout of a proposal *)

Lemma tokens_insert_same r (i j : ProposeInfo.t) (h : list ProposeInfo.t) :
  h !! r = Some j ->
  ProposeInfo.packet_id i = ProposeInfo.packet_id j ->
  ProposeInfo.packet_id <$> <[r := i]> h = ProposeInfo.packet_id <$> h.
Proof.
  intros Hj Hi. rewrite list_fmap_insert, Hi.
  apply list_insert_id. by rewrite list_lookup_fmap, Hj.
Qed.

Lemma passes_put_tokens packet s s' :
  propose_data s' = propose_data s ->
  ProposeInfo.packet_id <$> heap s' = ProposeInfo.packet_id <$> heap s ->
  passes_put packet s' = passes_put packet s.
Proof.
  intros Hd Hh. unfold passes_put. rewrite Hd.
  destruct (propose_data s !! _) as [r|]; [|done].
  apply (f_equal (fun l => l !! r)) in Hh. rewrite !list_lookup_fmap in Hh.
  destruct (heap s' !! r), (heap s !! r); try done.
  cbn in Hh. by injection Hh as ->.
Qed.

Lemma propose_timeout_frame seq v s :
  out (final (propose_timeout seq v s)) = out s /\
  packet_id (final (propose_timeout seq v s)) = packet_id s /\
  propose_data (final (propose_timeout seq v s)) = propose_data s /\
  accept_state (final (propose_timeout seq v s)) = accept_state s /\
  processes (final (propose_timeout seq v s)) = processes s /\
  ProposeInfo.packet_id <$> heap (final (propose_timeout seq v s)) =
    ProposeInfo.packet_id <$> heap s.
Proof.
  unfold propose_timeout, propose. mred.
  destruct (propose_data s !! seq) as [temp|]; [|done]. mred.
  destruct (heap s !! temp) as [j|] eqn:Hj; [|done].
  destruct (negb _); [|done]. mred. rewrite Hj. mred.
  repeat split. by apply (tokens_insert_same _ _ j).
Qed.

(** X13.  When the closure [propose_timeout] of a proposal runs, it sends
    nothing, hands nothing to the simulator and opens no round: the port,
    the packet counter, [propose_data], the acceptor states and the
    scheduled closures are as before.  A round it resets keeps its token,
    so [put] admits after the timeout exactly the packets it admitted
    before. *)
Theorem X13_propose_timeout_keeps_round_token s seq v :
  out (final (propose_timeout seq v s)) = out s /\
  packet_id (final (propose_timeout seq v s)) = packet_id s /\
  propose_data (final (propose_timeout seq v s)) = propose_data s /\
  accept_state (final (propose_timeout seq v s)) = accept_state s /\
  processes (final (propose_timeout seq v s)) = processes s /\
  ProposeInfo.packet_id <$> heap (final (propose_timeout seq v s)) =
    ProposeInfo.packet_id <$> heap s /\
  forall packet,
    passes_put packet (final (propose_timeout seq v s)) = passes_put packet s.
Proof.
  destruct (propose_timeout_frame seq v s) as (Ho&Hc&Hd&Ha&Hp&Hh).
  repeat split; try done. intros packet. by apply passes_put_tokens.
Qed.

(** ** Counting the replies of a round *)

Lemma exec_all_cons c cs s : exec_all (c :: cs) s = exec_all cs (exec c s).
Proof. done. Qed.

Lemma recv_prepare_replies_round seq r ps : forall s i0,
  propose_data s !! seq = Some r ->
  heap s !! r = Some i0 ->
  Forall (fun p => exists n v, Packet.payload p = PrepareReply seq true n v)
    ps ->
  exists i,
    heap (exec_all (CRecvPrepareReply <$> ps) s) !! r = Some i /\
    ProposeInfo.packet_id i = ProposeInfo.packet_id i0 /\
    ProposeInfo.prepare_count i =
      ProposeInfo.prepare_count i0 + Z.of_nat (length ps) /\
    (ProposeInfo.prepared i = true <->
     ProposeInfo.prepared i0 = true \/
     (ps ≠ [] /\
      Z.of_nat (length (peers s)) <
        2 * (ProposeInfo.prepare_count i0 + Z.of_nat (length ps)))) /\
    ProposeInfo.maxna i0 <= ProposeInfo.maxna i /\
    (forall p n v, p ∈ ps -> Packet.payload p = PrepareReply seq true n v ->
                   n <= ProposeInfo.maxna i) /\
    ((ProposeInfo.maxna i = ProposeInfo.maxna i0 /\
      ProposeInfo.v1 i = ProposeInfo.v1 i0) \/
     exists p, p ∈ ps /\
       Packet.payload p =
         PrepareReply seq true (ProposeInfo.maxna i) (ProposeInfo.v1 i)) /\
    ProposeInfo.accept_count i = ProposeInfo.accept_count i0 /\
    ProposeInfo.accepted i = ProposeInfo.accepted i0.
Proof.
  induction ps as [|p ps IH]; intros s i0 Hd Hi Hps.
  - exists i0. cbn. repeat split; try done; try lia.
    + intros H. by left.
    + by intros [H|[H _]].
    + intros p n v H. by apply elem_of_nil in H.
    + by left.
  - apply Forall_cons in Hps as [(n & v & Hp) Hps].
    rewrite fmap_cons, exec_all_cons. cbn [exec].
    rewrite (recv_prepare_reply_affirmative _ _ _ _ _ _ _ Hp Hd Hi).
    cbn [final].
    set (i1 := tally_prepare (length (peers s)) n v i0).
    destruct (IH (write r i1 s) i1)
      as (i & Hl & Hid & Hc & Hpr & Hm & Hall & Hbest & Hac & Hacd);
      [done|by eapply heap_write_eq|done|].
    exists i. split; [done|].
    subst i1. unfold tally_prepare in *.
    cbn [ProposeInfo.packet_id ProposeInfo.maxna ProposeInfo.v1
         ProposeInfo.prepare_count ProposeInfo.prepared
         ProposeInfo.accept_count ProposeInfo.accepted write peers set_heap
         length] in *.
    repeat split; try done; try lia.
    + intros H. apply Hpr in H as [H|[Hne H]].
      * destruct (Z.ltb_spec (Z.of_nat (length (peers s)))
                    (2 * (ProposeInfo.prepare_count i0 + 1))); [|by left].
        right. split; [done|lia].
      * right. split; [done|lia].
    + intros [H|[_ H]]; apply Hpr.
      * left. rewrite H. by destruct (Z.of_nat _ <? _).
      * destruct ps as [|p' ps'].
        -- left. cbn [length] in H.
           by replace (Z.of_nat _ <? _) with true by lia.
        -- right. split; [done|]. cbn [length] in *. lia.
    + destruct (ProposeInfo.maxna i0 <? n) eqn:E; lia.
    + intros p0 n0 v0 [->|Hin]%elem_of_cons Hp0.
      * rewrite Hp in Hp0. injection Hp0 as -> ->.
        destruct (ProposeInfo.maxna i0 <? n0) eqn:E; lia.
      * by eapply Hall.
    + destruct Hbest as [[Hmx Hv]|(p' & Hin & Hp')].
      * destruct (ProposeInfo.maxna i0 <? n) eqn:E.
        -- right. exists p. split; [by left|]. by rewrite Hmx, Hv.
        -- by left.
      * right. exists p'. split; [by right|done].
Qed.

(** X14.  A round as [broadcast_prepare_request] makes it, to which [k]
    affirmative [PrepareReply]s for its instance are handed one after the
    other: [prepare_count] is [k], whoever sent the replies; the round is
    prepared exactly when [k] is more than half the number of peers;
    [maxna] is the largest proposal number the replies report, and not
    below [0]; [(maxna, v1)] is the pair of one of the replies, or
    [(0, "")] when no reply reports a number above [0]; the token and the
    accept phase of the round are untouched. *)
Theorem X14_prepare_replies_are_counted s seq r pid ps :
  propose_data s !! seq = Some r ->
  heap s !! r = Some (ProposeInfo.new pid) ->
  Forall (fun p => exists n v, Packet.payload p = PrepareReply seq true n v)
    ps ->
  exists i,
    heap (exec_all (CRecvPrepareReply <$> ps) s) !! r = Some i /\
    ProposeInfo.packet_id i = pid /\
    ProposeInfo.prepare_count i = Z.of_nat (length ps) /\
    ProposeInfo.prepared i =
      (Z.of_nat (length (peers s)) <? 2 * Z.of_nat (length ps)) /\
    0 <= ProposeInfo.maxna i /\
    (forall p n v, p ∈ ps -> Packet.payload p = PrepareReply seq true n v ->
                   n <= ProposeInfo.maxna i) /\
    ((ProposeInfo.maxna i = 0 /\ ProposeInfo.v1 i = "") \/
     exists p, p ∈ ps /\
       Packet.payload p =
         PrepareReply seq true (ProposeInfo.maxna i) (ProposeInfo.v1 i)) /\
    ProposeInfo.accept_count i = 0 /\
    ProposeInfo.accepted i = false.
Proof.
  intros Hd Hi Hps.
  destruct (recv_prepare_replies_round seq r ps s _ Hd Hi Hps)
    as (i & Hl & Hid & Hc & Hpr & Hm & Hall & Hbest & Hac & Hacd).
  cbn in Hid, Hc, Hpr, Hm, Hbest, Hac, Hacd.
  exists i. repeat split; try done.
  destruct (Z.ltb_spec (Z.of_nat (length (peers s)))
              (2 * Z.of_nat (length ps))) as [Hlt|Hge].
  - apply Hpr. right. split; [|lia]. intros ->. cbn in Hlt. lia.
  - destruct (ProposeInfo.prepared i); [|done].
    destruct Hpr as [[H|[_ H]] _]; [done|done|lia].
Qed.

Lemma X14_witness :
  exists i,
    heap (exec_all (CRecvPrepareReply <$> replies_c_b) round1) !! 0%nat =
      Some i /\
    ProposeInfo.packet_id i = 1 /\
    ProposeInfo.prepare_count i = Z.of_nat (length replies_c_b) /\
    ProposeInfo.prepared i =
      (Z.of_nat (length (peers round1)) <?
         2 * Z.of_nat (length replies_c_b)) /\
    0 <= ProposeInfo.maxna i /\
    (forall p n v, p ∈ replies_c_b ->
                   Packet.payload p = PrepareReply 7 true n v ->
                   n <= ProposeInfo.maxna i) /\
    ((ProposeInfo.maxna i = 0 /\ ProposeInfo.v1 i = "") \/
     exists p, p ∈ replies_c_b /\
       Packet.payload p =
         PrepareReply 7 true (ProposeInfo.maxna i) (ProposeInfo.v1 i)) /\
    ProposeInfo.accept_count i = 0 /\
    ProposeInfo.accepted i = false.
Proof.
  apply (X14_prepare_replies_are_counted round1 7 0%nat 1 replies_c_b);
    [reflexivity|reflexivity|].
  repeat constructor; eexists _, _; reflexivity.
Defined.

Lemma recv_accept_replies_round seq r ps : forall s i0,
  propose_data s !! seq = Some r ->
  heap s !! r = Some i0 ->
  Forall (fun p => Attr.ok (Packet.payload p) = Some true /\
                   Attr.instance (Packet.payload p) = seq) ps ->
  heap (exec_all (CRecvAcceptReply <$> ps) s) !! r =
    Some (ProposeInfo.mk (ProposeInfo.packet_id i0) (ProposeInfo.maxna i0)
            (ProposeInfo.v1 i0) (ProposeInfo.prepare_count i0)
            (ProposeInfo.prepared i0)
            (ProposeInfo.accept_count i0 + Z.of_nat (length ps))
            (ProposeInfo.accepted i0 ||
             negb (Nat.eqb (length ps) 0) &&
             (Z.of_nat (length (peers s)) <?
                2 * (ProposeInfo.accept_count i0 + Z.of_nat (length ps))))).
Proof.
  induction ps as [|p ps IH]; intros s i0 Hd Hi Hps.
  - cbn. rewrite Hi, Z.add_0_r, orb_false_r. by destruct i0.
  - apply Forall_cons in Hps as [[Hok Hseq] Hps].
    rewrite fmap_cons, exec_all_cons. cbn [exec].
    rewrite <- Hseq in Hd.
    rewrite (recv_accept_reply_affirmative _ _ _ _ Hok Hd Hi). cbn [final].
    rewrite Hseq in Hd.
    set (i1 := tally_accept (length (peers s)) i0).
    rewrite (IH (write r i1 s) i1); [|done|by eapply heap_write_eq|done].
    subst i1. unfold tally_accept.
    cbn [ProposeInfo.packet_id ProposeInfo.maxna ProposeInfo.v1
         ProposeInfo.prepare_count ProposeInfo.prepared
         ProposeInfo.accept_count ProposeInfo.accepted write peers set_heap
         length Nat.eqb negb andb].
    f_equal. f_equal; [lia|]. rewrite Nat2Z.inj_succ.
    destruct ps as [|p' ps']; cbn [length Nat.eqb negb andb];
      destruct (ProposeInfo.accepted i0);
      repeat match goal with
        | |- context [?a <? ?b] => destruct (Z.ltb_spec a b)
        end; cbn [orb andb negb]; try done; exfalso; lia.
Qed.

(** X15.  A round that has tallied no [AcceptReply] yet, to which [k]
    replies with [ok] set are handed one after the other through
    [recv_accept_reply]: [accept_count] is [k], whoever sent the replies
    and whatever their type (an affirmative [PrepareReply] counts as
    well); the round is accepted exactly when [k] is more than half the
    number of peers; nothing else of the round changes. *)
Theorem X15_accept_replies_are_counted s seq r i0 ps :
  propose_data s !! seq = Some r ->
  heap s !! r = Some i0 ->
  ProposeInfo.accept_count i0 = 0 ->
  ProposeInfo.accepted i0 = false ->
  Forall (fun p => Attr.ok (Packet.payload p) = Some true /\
                   Attr.instance (Packet.payload p) = seq) ps ->
  heap (exec_all (CRecvAcceptReply <$> ps) s) !! r =
    Some (ProposeInfo.mk (ProposeInfo.packet_id i0) (ProposeInfo.maxna i0)
            (ProposeInfo.v1 i0) (ProposeInfo.prepare_count i0)
            (ProposeInfo.prepared i0) (Z.of_nat (length ps))
            (Z.of_nat (length (peers s)) <? 2 * Z.of_nat (length ps))).
Proof.
  intros Hd Hi Hc Ha Hps.
  rewrite (recv_accept_replies_round seq r ps s i0 Hd Hi Hps), Hc, Ha.
  f_equal. f_equal. destruct ps; cbn [length Nat.eqb negb andb orb]; [|done].
  symmetry. apply Z.ltb_ge. cbn. lia.
Qed.

Lemma X15_witness :
  heap (exec_all (CRecvAcceptReply <$> accepts_b_b) round1) !! 0%nat =
    Some (ProposeInfo.mk (ProposeInfo.packet_id (ProposeInfo.new 1))
            (ProposeInfo.maxna (ProposeInfo.new 1))
            (ProposeInfo.v1 (ProposeInfo.new 1))
            (ProposeInfo.prepare_count (ProposeInfo.new 1))
            (ProposeInfo.prepared (ProposeInfo.new 1))
            (Z.of_nat (length accepts_b_b))
            (Z.of_nat (length (peers round1)) <?
               2 * Z.of_nat (length accepts_b_b))).
Proof.
  apply (X15_accept_replies_are_counted round1 7 0%nat (ProposeInfo.new 1)
           accepts_b_b); try reflexivity.
  repeat constructor.
Defined.

(** ** What becomes of the replies *)

Lemma recv_prepare_reply_reject s packet seq n v r x :
  Packet.payload packet = PrepareReply seq false n v ->
  propose_data s !! seq = Some r ->
  dict_get seq (accept_state s) = Some x ->
  recv_prepare_reply packet s =
    Ok tt (if np x <? n
           then set_accept_state
                  (dict_set seq (mkState n (na x) (va x)) (accept_state s)) s
           else s).
Proof.
  intros Hp Hd Hx. unfold recv_prepare_reply. rewrite Hp.
  cbn [Attr.instance Attr.ok Attr.proposal]. mred. rewrite Hd. mred.
  rewrite Hx. by destruct (np x <? n).
Qed.

Lemma recv_prepare_refusal s packet seq n x q :
  Packet.payload packet = PrepareRequest seq n ->
  dict_get seq (accept_state s) = Some x ->
  n <= np x ->
  Packet.src packet ≠ id s ->
  out s = Some q ->
  exists s',
    recv_prepare packet s = Ok tt s' /\
    out s' = Some (q ++ [Packet.mk 40 (packet_id s + 1) (id s)
                           (Packet.src packet) (PrepareReply seq false 0 "")]).
Proof.
  intros Hp Hx Hn Hsrc Ho. rewrite (recv_prepare_eq _ _ _ _ _ Hp Hx).
  cbv zeta. replace (np x <? n) with false by lia.
  rewrite send_packet_to_eq.
  destruct (max_seq_seen s <? seq);
    cbn [id set_max_seq_seen out packet_id];
    rewrite decide_False, Ho by done; by eexists.
Qed.

(** X16.  The refusal that [recv_prepare] sends teaches a proposer
    nothing.  When an acceptor refuses a [PrepareRequest(seq, n)] of
    another peer, the reply it puts on its port is such that
    [recv_prepare_reply], on any peer that has a round for [seq] and an
    acceptor entry for [seq] with [np] not below [0], returns with the
    peer unchanged: neither the round nor [np] moves. *)
Theorem X16_refusal_teaches_nothing a request seq n x q :
  Packet.payload request = PrepareRequest seq n ->
  dict_get seq (accept_state a) = Some x ->
  n <= np x ->
  Packet.src request ≠ id a ->
  out a = Some q ->
  exists a' reply,
    recv_prepare request a = Ok tt a' /\
    out a' = Some (q ++ [reply]) /\
    forall b r y,
      propose_data b !! seq = Some r ->
      dict_get seq (accept_state b) = Some y ->
      0 <= np y ->
      recv_prepare_reply reply b = Ok tt b.
Proof.
  intros Hp Hx Hn Hsrc Ho.
  destruct (recv_prepare_refusal _ _ _ _ _ _ Hp Hx Hn Hsrc Ho) as (a' & H1 & H2).
  eexists a', _. split; [done|]. split; [done|].
  intros b r y Hd Hy H0.
  erewrite recv_prepare_reply_reject by done.
  by replace (np y <? 0) with false by lia.
Qed.

Lemma X16_witness :
  exists a' reply,
    recv_prepare (Packet.mk 40 3 "b" "" (PrepareRequest 7 4)) promised5 =
      Ok tt a' /\
    out a' = Some ([] ++ [reply]) /\
    forall b r y,
      propose_data b !! 7 = Some r ->
      dict_get 7 (accept_state b) = Some y ->
      0 <= np y ->
      recv_prepare_reply reply b = Ok tt b.
Proof.
  apply (X16_refusal_teaches_nothing promised5
           (Packet.mk 40 3 "b" "" (PrepareRequest 7 4)) 7 4 (mkState 5 2 "x")
           []); try reflexivity; [cbn; lia|done].
Defined.

(** X17.  Whatever [send_packet_to] sends to a named peer, no peer takes
    in: the packet carries the peer's name as [dst], [put] compares [dst]
    with [""] and with the integer [me], and so raises [AssertionError]
    and leaves the receiving peer as it was.  The replies of
    [recv_prepare] and [recv_accept] are sent this way. *)
Theorem X17_addressed_packets_are_refused s payload peer q :
  peer ≠ id s ->
  peer ≠ "" ->
  out s = Some q ->
  exists s' pkt,
    send_packet_to payload peer s = Ok tt s' /\
    out s' = Some (q ++ [pkt]) /\
    Packet.dst pkt = peer /\ Packet.payload pkt = payload /\
    forall b, put pkt b = Raise AssertionError b.
Proof.
  intros Hid Hne Ho. rewrite send_packet_to_eq, decide_False, Ho by done.
  cbv zeta. eexists _, _. split; [done|]. split; [done|].
  split; [done|]. split; [done|].
  intros b. by apply put_addressed.
Qed.

Lemma X17_witness :
  exists s' pkt,
    send_packet_to (AcceptReply 7 true) "b" fresh3 = Ok tt s' /\
    out s' = Some ([] ++ [pkt]) /\
    Packet.dst pkt = "b" /\ Packet.payload pkt = AcceptReply 7 true /\
    forall b, put pkt b = Raise AssertionError b.
Proof.
  apply (X17_addressed_packets_are_refused fresh3 (AcceptReply 7 true) "b" []);
    done.
Defined.

(** ** A constructed peer and its transport *)

(** X18.  A peer built by [__init__] and driven only by the calls of the
    application and of the transport never sends a packet, never opens a
    round and never learns a value, and every packet handed to its [put]
    is met with an exception: [AssertionError] when the packet names a
    destination, [KeyError] otherwise. *)
Theorem X18_constructed_peer_refuses_every_packet peers0 me0 out0 s cs :
  __init__ peers0 me0 out0 = inr s ->
  Forall entry_call cs ->
  out (exec_all cs s) = out0 /\
  packet_id (exec_all cs s) = 0 /\
  values (exec_all cs s) = ∅ /\
  propose_data (exec_all cs s) = ∅ /\
  forall packet,
    put packet (exec_all cs s) =
      Raise (if bool_decide (Packet.dst packet = "")
             then KeyError else AssertionError) (exec_all cs s).
Proof.
  intros Hinit Hcs. rewrite (constructed_peer_inert _ _ _ _ _ Hinit Hcs).
  apply init_inv in Hinit as (_&_&Hc&Ho&_&_&Hv&_&Hp&_).
  cbn [out packet_id values propose_data set_max_seq_seen].
  do 4 (split; [done|]).
  intros packet. rewrite put_eq. cbn [propose_data set_max_seq_seen].
  rewrite Hp, lookup_empty. by case_bool_decide.
Qed.

Lemma X18_witness :
  out (exec_all [CStart 3 "v"; CPut (Packet.mk 40 1 "b" "" (PrepareRequest 3 1))]
         fresh3) = Some [] /\
  packet_id (exec_all [CStart 3 "v";
                       CPut (Packet.mk 40 1 "b" "" (PrepareRequest 3 1))]
               fresh3) = 0 /\
  values (exec_all [CStart 3 "v";
                    CPut (Packet.mk 40 1 "b" "" (PrepareRequest 3 1))]
            fresh3) = ∅ /\
  propose_data (exec_all [CStart 3 "v";
                          CPut (Packet.mk 40 1 "b" "" (PrepareRequest 3 1))]
                  fresh3) = ∅ /\
  forall packet,
    put packet (exec_all [CStart 3 "v";
                          CPut (Packet.mk 40 1 "b" "" (PrepareRequest 3 1))]
                  fresh3) =
      Raise (if bool_decide (Packet.dst packet = "")
             then KeyError else AssertionError)
        (exec_all [CStart 3 "v";
                   CPut (Packet.mk 40 1 "b" "" (PrepareRequest 3 1))] fresh3).
Proof.
  apply (X18_constructed_peer_refuses_every_packet ["a"; "b"; "c"] 0 (Some [])
           fresh3); [reflexivity|].
  repeat constructor.
Defined.

(** ** The acceptor's answer to an Accept *)

(** X19.  [recv_accept] on an [AcceptRequest(seq, n, v)] of another peer.
    Without an acceptor entry for [seq] it raises [KeyError] and nothing
    has changed.  With an entry [x] it puts one [AcceptReply(seq, ok)] for
    the sender on the port, where [ok] tells whether [n] is at least
    [x.np]; when it is, the entry becomes [(n, n, v)], otherwise the entry
    stays; the entries of the other instances are as before. *)
Theorem X19_recv_accept_answers s packet seq n v q :
  Packet.payload packet = AcceptRequest seq n v ->
  Packet.src packet ≠ id s ->
  out s = Some q ->
  match dict_get seq (accept_state s) with
  | None => recv_accept packet s = Raise KeyError s
  | Some x =>
      exists s',
        recv_accept packet s = Ok tt s' /\
        out s' = Some (q ++ [Packet.mk 40 (packet_id s + 1) (id s)
                               (Packet.src packet)
                               (AcceptReply seq (np x <=? n))]) /\
        dict_get seq (accept_state s') =
          Some (if np x <=? n then mkState n n v else x) /\
        forall k, k ≠ seq ->
          dict_get k (accept_state s') = dict_get k (accept_state s)
  end.
Proof.
  intros Hp Hsrc Ho.
  destruct (dict_get seq (accept_state s)) as [x|] eqn:Hx.
  - rewrite (recv_accept_eq _ _ _ _ _ _ Hp Hx), !send_packet_to_eq.
    cbn [id set_accept_state out packet_id].
    rewrite !decide_False, Ho by done. cbv zeta.
    destruct (np x <=? n); eexists; (split; [done|]); cbn;
      (split; [done|]); split; try done.
    + by erewrite dict_get_set_eq.
    + intros k Hk. by apply dict_get_set_ne.
  - unfold recv_accept. rewrite Hp.
    cbn [Attr.instance Attr.proposal Attr.value]. mred. by rewrite Hx.
Qed.

Lemma X19_witness :
  match dict_get 7 (accept_state promised5) with
  | None =>
      recv_accept (Packet.mk 40 3 "b" "" (AcceptRequest 7 5 "y")) promised5 =
        Raise KeyError promised5
  | Some x =>
      exists s',
        recv_accept (Packet.mk 40 3 "b" "" (AcceptRequest 7 5 "y")) promised5 =
          Ok tt s' /\
        out s' = Some ([] ++ [Packet.mk 40 (packet_id promised5 + 1)
                                (id promised5) "b"
                                (AcceptReply 7 (np x <=? 5))]) /\
        dict_get 7 (accept_state s') =
          Some (if np x <=? 5 then mkState 5 5 "y" else x) /\
        forall k, k ≠ 7 ->
          dict_get k (accept_state s') = dict_get k (accept_state promised5)
  end.
Proof.
  apply (X19_recv_accept_answers promised5
           (Packet.mk 40 3 "b" "" (AcceptRequest 7 5 "y")) 7 5 "y" []);
    done.
Defined.

(** ** The tokens of the rounds *)

Lemma rising_le lo l hi : rising lo l hi -> lo <= hi.
Proof.
  revert lo. induction l as [|k l IH]; intros lo; cbn; [done|].
  intros [Hlt H]. apply IH in H. lia.
Qed.

Lemma rising_weaken lo lo' l hi : lo' <= lo -> rising lo l hi -> rising lo' l hi.
Proof. destruct l; cbn; [lia|]. intros ? [? ?]. split; [lia|done]. Qed.

Lemma rising_app lo l1 mid l2 hi :
  rising lo l1 mid -> rising mid l2 hi -> rising lo (l1 ++ l2) hi.
Proof.
  revert lo. induction l1 as [|k l1 IH]; intros lo; cbn.
  - intros. by eapply rising_weaken.
  - intros [Hlt H1] H2. split; [done|]. by apply IH.
Qed.

Lemma rising_bounds lo l hi k : rising lo l hi -> k ∈ l -> lo < k <= hi.
Proof.
  revert lo. induction l as [|k' l IH]; intros lo; cbn.
  - intros _ H. by apply elem_of_nil in H.
  - intros [Hlt H] [->|Hin]%elem_of_cons.
    + apply rising_le in H. lia.
    + specialize (IH _ H Hin). lia.
Qed.

Lemma rising_NoDup lo l hi : rising lo l hi -> NoDup l.
Proof.
  revert lo. induction l as [|k l IH]; intros lo; cbn; [constructor|].
  intros [Hlt H]. constructor; [|by eapply IH].
  intros Hin. pose proof (rising_bounds _ _ _ _ H Hin). lia.
Qed.

Lemma rounds_grow_refl s : rounds_grow s s.
Proof. exists []. rewrite app_nil_r. split; [done|]. cbn. lia. Qed.

Lemma rounds_grow_trans s1 s2 s3 :
  rounds_grow s1 s2 -> rounds_grow s2 s3 -> rounds_grow s1 s3.
Proof.
  intros (n1 & H1 & R1) (n2 & H2 & R2). exists (n1 ++ n2).
  rewrite H2, H1, app_assoc. split; [done|]. by eapply rising_app.
Qed.

(** A write that keeps the tokens, with the counter not going down. *)
Lemma rounds_grow_same s s' :
  tokens s' = tokens s -> packet_id s <= packet_id s' -> rounds_grow s s'.
Proof. intros Hh Hp. exists []. by rewrite app_nil_r. Qed.

Ltac grow_side :=
  first [ exact rounds_grow_refl | exact rounds_grow_trans
        | by (intros; apply rounds_grow_same; [done|cbn; lia]) ].

Lemma rounds_grow_update r f :
  (forall i, ProposeInfo.packet_id (f i) = ProposeInfo.packet_id i) ->
  preserves rounds_grow (update r f).
Proof.
  intros Hf s. mred. destruct (heap s !! r) as [i|] eqn:Hi; cbn [final];
    [|apply rounds_grow_refl].
  apply rounds_grow_same; [|cbn; lia]. unfold tokens. cbn [heap set_heap].
  by apply (tokens_insert_same _ _ i).
Qed.

Lemma rounds_grow_new_packet payload dst :
  preserves rounds_grow (new_packet payload dst).
Proof. intros s. unfold new_packet. mred. grow_side. Qed.

Lemma rounds_grow_send_packet_to payload peer :
  preserves rounds_grow (send_packet_to payload peer).
Proof.
  intros s. rewrite send_packet_to_eq.
  destruct (decide _); [apply rounds_grow_refl|]. cbv zeta.
  destruct (out s); cbn [final]; grow_side.
Qed.

Lemma rounds_grow_recv_prepare packet :
  preserves rounds_grow (recv_prepare packet).
Proof.
  unfold recv_prepare, get_state, put_state.
  chain rounds_grow rounds_grow_refl rounds_grow_trans
    ltac:(first [ apply rounds_grow_send_packet_to
                | apply preserves_modify; intros ?; grow_side ]).
Qed.

Lemma rounds_grow_recv_accept packet :
  preserves rounds_grow (recv_accept packet).
Proof.
  unfold recv_accept, get_state, put_state.
  chain rounds_grow rounds_grow_refl rounds_grow_trans
    ltac:(first [ apply rounds_grow_send_packet_to
                | apply preserves_modify; intros ?; grow_side ]).
Qed.

Lemma rounds_grow_recv_prepare_reply packet :
  preserves rounds_grow (recv_prepare_reply packet).
Proof.
  unfold recv_prepare_reply, get_propose_data, get_state, put_state, deref.
  chain rounds_grow rounds_grow_refl rounds_grow_trans
    ltac:(first [ apply rounds_grow_update; by intros []
                | apply preserves_modify; intros ?; grow_side ]).
Qed.

Lemma rounds_grow_recv_accept_reply packet :
  preserves rounds_grow (recv_accept_reply packet).
Proof.
  unfold recv_accept_reply, get_propose_data, deref.
  chain rounds_grow rounds_grow_refl rounds_grow_trans
    ltac:(first [ apply rounds_grow_update; by intros []
                | apply preserves_modify; intros ?; grow_side ]).
Qed.

Lemma rounds_grow_propose_timeout seq v :
  preserves rounds_grow (propose_timeout seq v).
Proof.
  intros s. destruct (propose_timeout_frame seq v s) as (_&Hc&_&_&_&Hh).
  apply rounds_grow_same; [done|lia].
Qed.

Lemma rounds_grow_broadcast_prepare_request seq n :
  preserves rounds_grow (broadcast_prepare_request seq n).
Proof.
  intros s. rewrite broadcast_prepare_request_eq.
  destruct (out s) as [q|]; [|apply rounds_grow_refl]. cbv zeta.
  eapply rounds_grow_trans; [|apply rounds_grow_recv_prepare].
  exists [packet_id s + 1]. unfold tokens. cbn. rewrite fmap_app.
  split; [done|lia].
Qed.

Lemma rounds_grow_broadcast_accept_request seq n v :
  preserves rounds_grow (broadcast_accept_request seq n v).
Proof.
  intros s. unfold broadcast_accept_request. mred.
  destruct (out s) as [q|] eqn:Ho; mred; [|apply rounds_grow_refl].
  destruct (propose_data s !! seq); mred; [|apply rounds_grow_refl].
  rewrite Ho. mred.
  eapply rounds_grow_trans; [|apply rounds_grow_recv_accept]. grow_side.
Qed.

Lemma rounds_grow_broadcast_decide_request seq v :
  preserves rounds_grow (broadcast_decide_request seq v).
Proof.
  intros s. unfold broadcast_decide_request. mred.
  destruct (py_index (done_seqs s) (me s)) as [d|]; mred;
    [|apply rounds_grow_refl].
  destruct (out s) as [q|] eqn:Ho; mred; rewrite ?Ho; mred; [|grow_side].
  eapply rounds_grow_trans;
    [|apply (preserves_recv_decided_request rounds_grow); grow_side].
  grow_side.
Qed.

Lemma rounds_grow_exec_all cs s : rounds_grow s (exec_all cs s).
Proof.
  apply closure_exec_all;
    first [ exact rounds_grow_refl | exact rounds_grow_trans
          | exact rounds_grow_new_packet | exact rounds_grow_send_packet_to
          | exact rounds_grow_recv_prepare | exact rounds_grow_recv_accept
          | exact rounds_grow_recv_prepare_reply
          | exact rounds_grow_recv_accept_reply
          | exact rounds_grow_propose_timeout
          | exact rounds_grow_broadcast_prepare_request
          | exact rounds_grow_broadcast_accept_request
          | exact rounds_grow_broadcast_decide_request
          | by (intros; apply rounds_grow_same; [done|cbn; lia])
          | intros; apply preserves_start; grow_side
          | intros; apply preserves_recv_decided_request; grow_side
          | intros; apply preserves_do_mem_shrink; grow_side ].
Qed.

(** X20.  Over any sequence of calls the [ProposeInfo] objects that were
    there stay, each with the token it had, and the objects made on the
    way have tokens that go strictly up, starting above the packet counter
    the sequence began with and ending at most at the counter it leaves,
    so that no two of them share a token. *)
Theorem X20_rounds_take_fresh_tokens cs s :
  exists new,
    tokens (exec_all cs s) = tokens s ++ new /\
    rising (packet_id s) new (packet_id (exec_all cs s)) /\
    NoDup new /\
    Forall (fun k => packet_id s < k <= packet_id (exec_all cs s)) new.
Proof.
  destruct (rounds_grow_exec_all cs s) as (new & Ht & Hr).
  exists new. split; [done|]. split; [done|]. split.
  - by eapply rising_NoDup.
  - apply Forall_forall. intros k Hk. by eapply rising_bounds.
Qed.

(** X21.  On a peer built by [__init__], after any sequence of calls, no
    two [ProposeInfo] objects share a token, and every token is positive
    and at most the packet counter. *)
Theorem X21_constructed_peer_tokens_distinct peers0 me0 out0 s cs :
  __init__ peers0 me0 out0 = inr s ->
  NoDup (tokens (exec_all cs s)) /\
  Forall (fun k => 0 < k <= packet_id (exec_all cs s)) (tokens (exec_all cs s)).
Proof.
  intros Hinit. apply init_inv in Hinit as (_&_&Hc&_&_&_&_&_&_&Hh&_).
  destruct (rounds_grow_exec_all cs s) as (new & Ht & Hr).
  unfold tokens at 2 in Ht. rewrite Hh in Ht. cbn in Ht.
  rewrite Ht, Hc in *. split.
  - by eapply rising_NoDup.
  - apply Forall_forall. intros k Hk. by eapply rising_bounds.
Qed.

Lemma X21_witness :
  NoDup (tokens (exec_all [CBroadcastPrepareRequest 7 1;
                           CBroadcastPrepareRequest 7 2] fresh3)) /\
  Forall (fun k => 0 < k <= packet_id
                     (exec_all [CBroadcastPrepareRequest 7 1;
                                CBroadcastPrepareRequest 7 2] fresh3))
    (tokens (exec_all [CBroadcastPrepareRequest 7 1;
                       CBroadcastPrepareRequest 7 2] fresh3)).
Proof.
  apply (X21_constructed_peer_tokens_distinct ["a"; "b"; "c"] 0 (Some [])
           fresh3). reflexivity.
Defined.

(** ** A round that finds its majorities *)

Lemma first_resumption_eq s seq v q x :
  out s = Some q ->
  dict_get seq (accept_state s) = Some x ->
  let pid := packet_id s + 1 in
  let n := np x + 1 in
  let pkt := Packet.mk 40 pid (id s) "" (PrepareRequest seq n) in
  next (Created seq v) s =
    Ok (AtPrepared seq v n (length (heap s)))
       (set_processes (processes s ++ [(seq, v)])
          (set_accept_state
             (dict_set seq (mkState n (na x) (va x)) (accept_state s))
             (set_max_seq_seen (Z.max (max_seq_seen s) seq)
                (set_propose_data (<[seq := length (heap s)]> (propose_data s))
                   (set_heap (heap s ++ [ProposeInfo.new pid])
                      (set_out (Some (q ++ [pkt]))
                         (set_packet_id pid s))))))).
Proof.
  intros Ho Hx. cbv zeta. unfold next. mred. rewrite Hx.
  rewrite (broadcast_prepare_request_ok _ _ _ _ _ Ho Hx). cbv zeta. mred.
  rewrite lookup_insert_eq.
  by replace (np x <? np x + 1) with true by lia.
Qed.

Lemma write_same r i s : heap s !! r = Some i -> write r i s = s.
Proof. intros H. unfold write. rewrite list_insert_id by done. by destruct s. Qed.

Lemma recv_prepare_replies_state seq r ps : forall s i0,
  propose_data s !! seq = Some r ->
  heap s !! r = Some i0 ->
  Forall (fun p => exists n v, Packet.payload p = PrepareReply seq true n v)
    ps ->
  exists i,
    heap (exec_all (CRecvPrepareReply <$> ps) s) !! r = Some i /\
    exec_all (CRecvPrepareReply <$> ps) s = write r i s.
Proof.
  induction ps as [|p ps IH]; intros s i0 Hd Hi Hps.
  - exists i0. cbn. split; [done|]. by rewrite write_same.
  - apply Forall_cons in Hps as [(n & v & Hp) Hps].
    rewrite fmap_cons, exec_all_cons. cbn [exec].
    rewrite (recv_prepare_reply_affirmative _ _ _ _ _ _ _ Hp Hd Hi).
    cbn [final].
    set (i1 := tally_prepare (length (peers s)) n v i0).
    destruct (IH (write r i1 s) i1) as (i & Hl & Hs);
      [done|by eapply heap_write_eq|done|].
    exists i. split; [done|]. by rewrite Hs, write_write.
Qed.

Lemma recv_accept_replies_state seq r ps : forall s i0,
  propose_data s !! seq = Some r ->
  heap s !! r = Some i0 ->
  Forall (fun p => Attr.ok (Packet.payload p) = Some true /\
                   Attr.instance (Packet.payload p) = seq) ps ->
  exists i,
    heap (exec_all (CRecvAcceptReply <$> ps) s) !! r = Some i /\
    exec_all (CRecvAcceptReply <$> ps) s = write r i s.
Proof.
  induction ps as [|p ps IH]; intros s i0 Hd Hi Hps.
  - exists i0. cbn. split; [done|]. by rewrite write_same.
  - apply Forall_cons in Hps as [[Hok Hseq] Hps].
    rewrite fmap_cons, exec_all_cons. cbn [exec].
    rewrite <- Hseq in Hd.
    rewrite (recv_accept_reply_affirmative _ _ _ _ Hok Hd Hi). cbn [final].
    rewrite Hseq in Hd.
    set (i1 := tally_accept (length (peers s)) i0).
    destruct (IH (write r i1 s) i1) as (i & Hl & Hs);
      [done|by eapply heap_write_eq|done|].
    exists i. split; [done|]. by rewrite Hs, write_write.
Qed.

Lemma broadcast_accept_request_own s seq n v q r y :
  out s = Some q ->
  propose_data s !! seq = Some r ->
  dict_get seq (accept_state s) = Some y ->
  np y <= n ->
  broadcast_accept_request seq n v s =
    Ok tt (set_accept_state (dict_set seq (mkState n n v) (accept_state s))
             (set_out
                (Some (q ++ [Packet.mk 40 (packet_id s + 1) (id s) ""
                               (AcceptRequest seq n v)]))
                (set_packet_id (packet_id s + 1) s))).
Proof.
  intros Ho Hd Hy Hn. unfold broadcast_accept_request. mred.
  rewrite Ho, Hd. mred. rewrite Ho. mred.
  erewrite recv_accept_eq; [|done|exact Hy].
  replace (np y <=? n) with true by lia.
  by rewrite send_packet_to_eq, decide_True.
Qed.

Lemma second_resumption_eq s seq v n r i q y :
  heap s !! r = Some i ->
  ProposeInfo.prepared i = true ->
  out s = Some q ->
  propose_data s !! seq = Some r ->
  dict_get seq (accept_state s) = Some y ->
  np y <= n ->
  next (AtPrepared seq v n r) s =
    Ok (AtAccepted seq v n r)
       (set_accept_state (dict_set seq (mkState n n v) (accept_state s))
          (set_out
             (Some (q ++ [Packet.mk 40 (packet_id s + 1) (id s) ""
                            (AcceptRequest seq n v)]))
             (set_packet_id (packet_id s + 1) s))).
Proof.
  intros Hi Hp Ho Hd Hy Hn. unfold next. mred. rewrite Hi. mred.
  rewrite Hp. mred.
  by rewrite (broadcast_accept_request_own _ _ _ _ _ _ _ Ho Hd Hy Hn).
Qed.

Lemma third_resumption_eq s seq v n r i q d :
  heap s !! r = Some i ->
  ProposeInfo.accepted i = true ->
  out s = Some q ->
  py_index (done_seqs s) (me s) = Some d ->
  next (AtAccepted seq v n r) s =
    Raise StopIteration
      (set_values (<[seq := v]> (values s))
         (set_out
            (Some (q ++ [Packet.mk 40 (packet_id s + 1) (id s) ""
                           (DecidedRequest seq (me s) d v)]))
            (set_packet_id (packet_id s + 1) s))).
Proof.
  intros Hi Ha Ho Hd. unfold next. mred. rewrite Hi. mred. rewrite Ha. mred.
  by rewrite broadcast_decide_request_eq, Hd, Ho.
Qed.

(** X22.  A proposal that finds its majorities runs to its end.  On a
    peer with a port, an acceptor entry [x] for [seq] and a watermark [d]
    of its own, let the generator of [propose(seq, v)] be resumed, then
    affirmative [PrepareReply]s for [seq] from more than half of the peers
    be handled, the generator be resumed again, replies with [ok] set for
    [seq] from more than half of the peers be handled by
    [recv_accept_reply], and the generator be resumed a third time.  The
    three resumptions stop at the first [yield], at the second [yield] and
    with [StopIteration].  The peer has then sent, in this order,
    [PrepareRequest(seq, x.np + 1)], [AcceptRequest(seq, x.np + 1, v)] and
    [DecidedRequest(seq, me, d, v)], each to everybody; it has recorded
    [v] as the value of [seq], and its own acceptor holds
    [(x.np + 1, x.np + 1, v)], whatever the Prepare replies reported. *)
Theorem X22_round_with_majorities_decides s seq v q x d preps accs :
  out s = Some q ->
  dict_get seq (accept_state s) = Some x ->
  py_index (done_seqs s) (me s) = Some d ->
  Forall (fun p => exists n v, Packet.payload p = PrepareReply seq true n v)
    preps ->
  Forall (fun p => Attr.ok (Packet.payload p) = Some true /\
                   Attr.instance (Packet.payload p) = seq) accs ->
  Z.of_nat (length (peers s)) < 2 * Z.of_nat (length preps) ->
  Z.of_nat (length (peers s)) < 2 * Z.of_nat (length accs) ->
  exists g1 s1 g2 s2 s3,
    next (propose seq v) s = Ok g1 s1 /\
    next g1 (exec_all (CRecvPrepareReply <$> preps) s1) = Ok g2 s2 /\
    next g2 (exec_all (CRecvAcceptReply <$> accs) s2) =
      Raise StopIteration s3 /\
    out s3 =
      Some (q ++ [Packet.mk 40 (packet_id s + 1) (id s) ""
                    (PrepareRequest seq (np x + 1));
                  Packet.mk 40 (packet_id s + 2) (id s) ""
                    (AcceptRequest seq (np x + 1) v);
                  Packet.mk 40 (packet_id s + 3) (id s) ""
                    (DecidedRequest seq (me s) d v)]) /\
    values s3 !! seq = Some v /\
    dict_get seq (accept_state s3) = Some (mkState (np x + 1) (np x + 1) v).
Proof.
  intros Ho Hx Hd Hpre Hacc Hqp Hqa. unfold propose.
  pose proof (first_resumption_eq s seq v q x Ho Hx) as H1. cbv zeta in H1.
  match type of H1 with _ = Ok _ ?st => set (s1 := st) in * end.
  set (r := length (heap s)) in *.
  assert (propose_data s1 !! seq = Some r) as Hd1
    by (unfold s1; cbn; apply lookup_insert_eq).
  assert (heap s1 !! r = Some (ProposeInfo.new (packet_id s + 1))) as Hh1
    by (unfold s1, r; cbn; by rewrite lookup_app_r, Nat.sub_diag).
  destruct (recv_prepare_replies_state seq r preps s1 _ Hd1 Hh1 Hpre)
    as (i & Hi & Hs1).
  destruct (recv_prepare_replies_round seq r preps s1 _ Hd1 Hh1 Hpre)
    as (i' & Hi' & _ & _ & Hpr & _ & _ & _ & Hac & Hacd).
  rewrite Hi in Hi'. injection Hi' as <-.
  assert (ProposeInfo.prepared i = true) as Hprep.
  { apply Hpr. right. split; [intros ->; cbn in Hqp; lia|].
    change (peers s1) with (peers s). cbn. lia. }
  assert (dict_get seq (accept_state (write r i s1)) =
            Some (mkState (np x + 1) (na x) (va x))) as Hy
    by (unfold s1; cbn; by erewrite dict_get_set_eq).
  pose proof (second_resumption_eq (write r i s1) seq v (np x + 1) r i _ _
                (heap_write_eq _ _ _ _ Hh1) Hprep eq_refl Hd1 Hy
                (Z.le_refl _)) as H2.
  match type of H2 with _ = Ok _ ?st => set (s2 := st) in * end.
  assert (propose_data s2 !! seq = Some r) as Hd2 by exact Hd1.
  assert (heap s2 !! r = Some i) as Hh2
    by (unfold s2; cbn [heap set_accept_state set_out set_packet_id];
        by eapply heap_write_eq).
  destruct (recv_accept_replies_state seq r accs s2 _ Hd2 Hh2 Hacc)
    as (i2 & Hi2 & Hs2).
  pose proof Hi2 as Hi2'.
  rewrite (recv_accept_replies_round seq r accs s2 _ Hd2 Hh2 Hacc) in Hi2'.
  injection Hi2' as Hi2'.
  assert (ProposeInfo.accepted i2 = true) as Hacpt.
  { rewrite <- Hi2'. cbn [ProposeInfo.accepted]. apply orb_true_iff. right.
    change (peers s2) with (peers s). rewrite Hac.
    destruct accs; [cbn in Hqa; lia|].
    cbn [length Nat.eqb negb andb] in Hqa |- *.
    apply Z.ltb_lt. unfold ProposeInfo.new.
    cbn [ProposeInfo.accept_count]. lia. }
  pose proof (third_resumption_eq (write r i2 s2) seq v (np x + 1) r i2 _ d
                (heap_write_eq _ _ _ _ Hh2) Hacpt eq_refl Hd) as H3.
  eexists _, _, _, _, _. split; [exact H1|].
  rewrite Hs1. split; [exact H2|].
  rewrite Hs2. split; [exact H3|].
  cbn. rewrite lookup_insert_eq.
  split; [|split; [done|by erewrite dict_get_set_eq]].
  replace (packet_id s + 1 + 1 + 1) with (packet_id s + 3) by lia.
  replace (packet_id s + 1 + 1) with (packet_id s + 2) by lia.
  by rewrite <- !app_assoc.
Qed.

Lemma X22_witness :
  exists g1 s1 g2 s2 s3,
    next (propose 12 "new") ready_proposer = Ok g1 s1 /\
    next g1 (exec_all (CRecvPrepareReply <$> promises_12) s1) = Ok g2 s2 /\
    next g2 (exec_all (CRecvAcceptReply <$> accepts_12) s2) =
      Raise StopIteration s3 /\
    out s3 =
      Some ([] ++ [Packet.mk 40 (packet_id ready_proposer + 1)
                     (id ready_proposer) ""
                     (PrepareRequest 12 (np (mkState 5 0 "") + 1));
                   Packet.mk 40 (packet_id ready_proposer + 2)
                     (id ready_proposer) ""
                     (AcceptRequest 12 (np (mkState 5 0 "") + 1) "new");
                   Packet.mk 40 (packet_id ready_proposer + 3)
                     (id ready_proposer) ""
                     (DecidedRequest 12 (me ready_proposer) 3 "new")]) /\
    values s3 !! 12 = Some "new" /\
    dict_get 12 (accept_state s3) =
      Some (mkState (np (mkState 5 0 "") + 1) (np (mkState 5 0 "") + 1) "new").
Proof.
  apply (X22_round_with_majorities_decides ready_proposer 12 "new" []
           (mkState 5 0 "") 3 promises_12 accepts_12);
    try reflexivity.
  - repeat constructor; eexists _, _; reflexivity.
  - repeat constructor.
Defined.

(** ** A timeout under a waiting proposal *)

Lemma propose_timeout_resets s seq v temp i :
  propose_data s !! seq = Some temp ->
  heap s !! temp = Some i ->
  ProposeInfo.accepted i = false ->
  propose_timeout seq v s = Ok tt (write temp (ProposeInfo.reset i) s).
Proof.
  intros Hd Hi Ha. unfold propose_timeout, propose. mred. rewrite Hd. mred.
  rewrite Hi, Ha, andb_false_r. cbn [negb]. mred. by rewrite Hi.
Qed.

(** X23.  The timeout closure and the generator of a proposal hold the
    same [ProposeInfo] object.  When the closure runs while the round is
    not accepted, it resets that object, and the proposal that waits on it
    cannot go on: resumed at its first [yield] or at its second, the
    generator fails its assertion with [AssertionError] and sends nothing,
    even if the round had been prepared before the timeout. *)
Theorem X23_timeout_fails_the_waiting_proposal s seq v v' n temp i :
  propose_data s !! seq = Some temp ->
  heap s !! temp = Some i ->
  ProposeInfo.accepted i = false ->
  exists s',
    propose_timeout seq v' s = Ok tt s' /\
    heap s' !! temp = Some (ProposeInfo.reset i) /\
    next (AtPrepared seq v n temp) s' = Raise AssertionError s' /\
    next (AtAccepted seq v n temp) s' = Raise AssertionError s'.
Proof.
  intros Hd Hi Ha. rewrite (propose_timeout_resets _ _ _ _ _ Hd Hi Ha).
  eexists. split; [done|].
  pose proof (heap_write_eq temp (ProposeInfo.reset i) i s Hi) as Hw.
  split; [done|]. unfold next. mred. by rewrite Hw.
Qed.

Lemma X23_witness :
  exists s',
    propose_timeout 7 "v" round1 = Ok tt s' /\
    heap s' !! 0%nat = Some (ProposeInfo.reset (ProposeInfo.new 1)) /\
    next (AtPrepared 7 "v" 1 0) s' = Raise AssertionError s' /\
    next (AtAccepted 7 "v" 1 0) s' = Raise AssertionError s'.
Proof.
  apply (X23_timeout_fails_the_waiting_proposal round1 7 "v" "v" 1 0%nat
           (ProposeInfo.new 1)); reflexivity.
Defined.

(** ** The constructor *)

(** X24.  [__init__] takes [me] as a Python index into [peers]: with
    [-len <= me < len] it builds a peer whose [id] is the name at position
    [me mod len], keeps [me] as given, and leaves the packet counter at
    [0] and the tables empty; with any other [me] it raises
    [IndexError]. *)
Theorem X24_init_takes_python_indices peers0 me0 out0 :
  let len := Z.of_nat (length peers0) in
  if (- len <=? me0) && (me0 <? len) then
    exists s,
      __init__ peers0 me0 out0 = inr s /\
      peers0 !! Z.to_nat (me0 mod len) = Some (id s) /\
      me s = me0 /\ peers s = peers0 /\ out s = out0 /\ packet_id s = 0 /\
      done_seqs s = [] /\ values s = ∅ /\ accept_state s = [] /\
      propose_data s = ∅
  else __init__ peers0 me0 out0 = inl IndexError.
Proof.
  cbv zeta. unfold __init__, py_index, py_pos. cbv zeta.
  set (len := Z.of_nat (length peers0)).
  destruct (Z.leb_spec 0 me0), (Z.ltb_spec me0 len), (Z.leb_spec (- len) me0),
    (Z.ltb_spec me0 0); cbn [andb]; try lia; try done.
  - rewrite Z.mod_small by lia.
    destruct (lookup_lt_is_Some_2 peers0 (Z.to_nat me0)) as [i Hi];
      [unfold len in *; lia|].
    rewrite Hi. eexists. split; [done|]. cbn. by repeat split.
  - replace (me0 mod len) with (len + me0)
      by (apply Z.mod_unique with (-1); lia).
    destruct (lookup_lt_is_Some_2 peers0 (Z.to_nat (len + me0))) as [i Hi];
      [unfold len in *; lia|].
    rewrite Hi. eexists. split; [done|]. cbn. by repeat split.
Qed.
